(** * SMS-Simulator: a shallow embedding of [sms_simulator.py]

    The simulator partitions a generated workload over a number of
    [Sender]s, runs every sender's [send_all] coroutine on a thread of its
    own and lets a [Monitor] harvest the senders' counters until no sender
    is sending any more.

    Layout of the development:
    - Python values used by the program (exceptions, floats, locks);
    - [array_split], the NumPy routine [main] partitions the workload with;
    - [Sender]: its constructor, and [send_all]/[send] and
      [get_and_reset_stats] as statement-level transition functions, so
      that threads can be interleaved;
    - [Monitor.monitor] as a transition function over the shared senders;
    - schedules: a sender with one harvesting client, and the whole
      program ([main]);
    - the properties. *)

From Stdlib Require Import ZArith List Bool Lia String.
From Stdlib Require Import Floats.
From stdpp Require Import base list.
Import ListNotations.

Set Default Proof Using "Type".

(** ** Python values *)

(** The exceptions the modelled code can raise. *)
Inductive PyError : Type :=
| ValueError
| ZeroDivisionError
| OverflowError
| IndexError.

(** A computation that returns or raises. *)
Inductive Result (A : Type) : Type :=
| Ok (a : A)
| Raise (e : PyError).
Arguments Ok {A} a.
Arguments Raise {A} e.

Definition bind {A B} (m : Result A) (k : A -> Result B) : Result B :=
  match m with
  | Ok a => k a
  | Raise e => Raise e
  end.

Notation "'let*' x ':=' m 'in' k" := (bind m (fun x => k))
  (at level 10, x name, m at level 100, k at level 200).

(** [[f(x) for x in l]] where [f] may raise: the first exception wins. *)
Fixpoint mapM {A B} (f : A -> Result B) (l : list A) : Result (list B) :=
  match l with
  | [] => Ok []
  | x :: l' => let* y := f x in let* ys := mapM f l' in Ok (y :: ys)
  end.

(** Python's [float] is an IEEE 754 binary64, as is Rocq's primitive
    [float]. *)

(** [float(n)] for a Python [int]: rounded to nearest even; integers
    beyond the range of a double raise [OverflowError]. *)
Definition float_of_int (n : Z) : Result float :=
  let f := SF2Prim (SpecFloat.binary_normalize prec emax n 0 false) in
  if is_infinity f then Raise OverflowError else Ok f.

(** [x / y] on floats: Python raises on a zero divisor (of either sign)
    instead of returning an infinity or a NaN. *)
Definition float_truediv (x y : float) : Result float :=
  if (y =? 0)%float then Raise ZeroDivisionError else Ok (x / y)%float.

(** [x ** 2] on a float: [OverflowError] when a finite [x] squares to an
    infinity. *)
Definition float_pow2 (x : float) : Result float :=
  let y := (x * x)%float in
  if is_finite x && is_infinity y then Raise OverflowError else Ok y.

(** ** Messages *)

Record Message : Type := mkMessage {
  message : string;
  recipient : string
}.

(** ** Partitioning: [np.array_split(producer.produce(), args.senders)]

    [array_split] is NumPy's, not the simulator's; it is modelled after
    [numpy.lib.shape_base.array_split] with an integer second argument:
    [Neach_section, extras = divmod(Ntotal, Nsections)], section sizes
    [[0] + extras * [Neach_section + 1] + (Nsections - extras) * [Neach_section]],
    division points their cumulative sums, and the i-th sub-array the
    slice between two consecutive division points. *)

Fixpoint cumsum_from (acc : nat) (l : list nat) : list nat :=
  match l with
  | [] => []
  | x :: l' => (acc + x) :: cumsum_from (acc + x) l'
  end.

Definition cumsum (l : list nat) : list nat := cumsum_from 0 l.

(** [ary[st:en]] for [0 <= st], [0 <= en]. *)
Definition slice {A} (ary : list A) (st en : nat) : list A :=
  take (en - st) (drop st ary).

Definition array_split {A} (ary : list A) (indices_or_sections : Z)
  : Result (list (list A)) :=
  let Ntotal := length ary in
  let Nsections := indices_or_sections in
  if (Nsections <=? 0)%Z then Raise ValueError
  else
    let Nsections := Z.to_nat Nsections in
    let Neach_section := Ntotal / Nsections in
    let extras := Ntotal mod Nsections in
    let section_sizes :=
      [0] ++ repeat (Neach_section + 1) extras
          ++ repeat Neach_section (Nsections - extras) in
    let div_points := cumsum section_sizes in
    Ok (map (fun i => slice ary (nth i div_points 0) (nth (i + 1) div_points 0))
            (seq 0 Nsections)).

(** ** Senders *)

(** A [threading.Lock]: [true] while some thread holds it. *)
Definition Lock : Type := bool.

Record Sender : Type := mkSender {
  shape : float;
  scale : float;
  failure_rate : float;
  messages : list Message;
  messages_sent_lock : Lock;
  num_messages_sent : Z;
  messages_failed_lock : Lock;
  num_messages_failed : Z;
  elapsed_time_lock : Lock;
  elapsed_time : float;
  elapsed_time_denominator : Z;
  is_sending : bool
}.

(** [Sender.__init__] (lines 34-50). [std_deviation] is the [int] 1. *)
Definition Sender_init (mean_delay failure_rate : float) (messages : list Message)
  : Result Sender :=
  let std_deviation := 1%Z in
  let* sq := float_pow2 mean_delay in
  let* sd := float_of_int std_deviation in
  let* shape := float_truediv sq sd in
  let* scale := float_truediv sd mean_delay in
  Ok {| shape := shape;
        scale := scale;
        failure_rate := failure_rate;
        messages := messages;
        messages_sent_lock := false;
        num_messages_sent := 0;
        messages_failed_lock := false;
        num_messages_failed := 0;
        elapsed_time_lock := false;
        elapsed_time := 0%float;
        elapsed_time_denominator := 0;
        is_sending := false |}.

(** *** Locks

    The three lock attributes of a sender. A lock object defines neither
    [__bool__] nor [__len__], so it is truthy, and [a and b] on two lock
    objects evaluates to [b]. *)
Inductive LockAttr : Type :=
| messages_failed_lock_attr
| messages_sent_lock_attr
| elapsed_time_lock_attr.

Definition truthy (l : LockAttr) : bool := true.

(** Python's [a and b]: [a] if [a] is falsy, else [b]. *)
Definition py_and (a b : LockAttr) : LockAttr := if truthy a then b else a.

Definition locked (l : LockAttr) (s : Sender) : bool :=
  match l with
  | messages_failed_lock_attr => messages_failed_lock s
  | messages_sent_lock_attr => messages_sent_lock s
  | elapsed_time_lock_attr => elapsed_time_lock s
  end.

Definition set_lock (l : LockAttr) (b : bool) (s : Sender) : Sender :=
  match l with
  | messages_failed_lock_attr =>
      mkSender (shape s) (scale s) (failure_rate s) (messages s)
        (messages_sent_lock s) (num_messages_sent s)
        b (num_messages_failed s)
        (elapsed_time_lock s) (elapsed_time s) (elapsed_time_denominator s)
        (is_sending s)
  | messages_sent_lock_attr =>
      mkSender (shape s) (scale s) (failure_rate s) (messages s)
        b (num_messages_sent s)
        (messages_failed_lock s) (num_messages_failed s)
        (elapsed_time_lock s) (elapsed_time s) (elapsed_time_denominator s)
        (is_sending s)
  | elapsed_time_lock_attr =>
      mkSender (shape s) (scale s) (failure_rate s) (messages s)
        (messages_sent_lock s) (num_messages_sent s)
        (messages_failed_lock s) (num_messages_failed s)
        b (elapsed_time s) (elapsed_time_denominator s)
        (is_sending s)
  end.

(** [lock.acquire()]: a thread that finds the lock held cannot take the
    step ([None]); it stays where it is until the lock is free. *)
Definition acquire (l : LockAttr) (s : Sender) : option Sender :=
  if locked l s then None else Some (set_lock l true s).

Definition release (l : LockAttr) (s : Sender) : Sender := set_lock l false s.

(** *** Attribute updates *)

Definition set_messages (v : list Message) (s : Sender) : Sender :=
  mkSender (shape s) (scale s) (failure_rate s) v
    (messages_sent_lock s) (num_messages_sent s)
    (messages_failed_lock s) (num_messages_failed s)
    (elapsed_time_lock s) (elapsed_time s) (elapsed_time_denominator s)
    (is_sending s).

Definition set_num_messages_sent (v : Z) (s : Sender) : Sender :=
  mkSender (shape s) (scale s) (failure_rate s) (messages s)
    (messages_sent_lock s) v
    (messages_failed_lock s) (num_messages_failed s)
    (elapsed_time_lock s) (elapsed_time s) (elapsed_time_denominator s)
    (is_sending s).

Definition set_num_messages_failed (v : Z) (s : Sender) : Sender :=
  mkSender (shape s) (scale s) (failure_rate s) (messages s)
    (messages_sent_lock s) (num_messages_sent s)
    (messages_failed_lock s) v
    (elapsed_time_lock s) (elapsed_time s) (elapsed_time_denominator s)
    (is_sending s).

Definition set_elapsed_time (v : float) (s : Sender) : Sender :=
  mkSender (shape s) (scale s) (failure_rate s) (messages s)
    (messages_sent_lock s) (num_messages_sent s)
    (messages_failed_lock s) (num_messages_failed s)
    (elapsed_time_lock s) v (elapsed_time_denominator s)
    (is_sending s).

Definition set_elapsed_time_denominator (v : Z) (s : Sender) : Sender :=
  mkSender (shape s) (scale s) (failure_rate s) (messages s)
    (messages_sent_lock s) (num_messages_sent s)
    (messages_failed_lock s) (num_messages_failed s)
    (elapsed_time_lock s) (elapsed_time s) v
    (is_sending s).

Definition set_is_sending (v : bool) (s : Sender) : Sender :=
  mkSender (shape s) (scale s) (failure_rate s) (messages s)
    (messages_sent_lock s) (num_messages_sent s)
    (messages_failed_lock s) (num_messages_failed s)
    (elapsed_time_lock s) (elapsed_time s) (elapsed_time_denominator s)
    v.

(** *** [send_all] and [send] (lines 53-76)

    The coroutine is a transition function: one step executes one
    statement of [send_all] or of the [send] it awaits; entering and
    leaving a [with] block are steps of their own. Another thread may
    run between any two steps.

    The [+=] of lines 72 and 75 are two steps each, the read of the
    attribute and the write of the value read plus one:
    [get_and_reset_stats] holds neither [__messages_failed_lock] nor
    [__messages_sent_lock] (see line 79 below), so it can read and reset
    the counter between the two. The [+=] of lines 61 and 62 are one
    step each: they run under [__elapsed_time_lock], the lock
    [get_and_reset_stats] does hold while it reads and resets, and no
    other code touches those attributes.

    What the outside world answers during one loop iteration: the two
    clock readings of [time.perf_counter()], the sample of
    [np.random.gamma(shape, scale)] and the draw of [random.random()].
    The gamma sample is taken as given: NumPy's validation of [shape] and
    [scale] is not part of the model. *)
Record Attempt : Type := mkAttempt {
  t_start : float;
  gamma_sample : float;
  draw : float;
  t_end : float
}.

Inductive SendAllPc : Type :=
| L54_set_is_sending      (* self.is_sending = True *)
| L55_while               (* while len(self.__messages) > 0: *)
| L56_start               (* start = time.perf_counter() *)
| L57_call_send           (* sent = await self.send(self.__messages[-1]) *)
| L67_gamma               (* delay = np.random.gamma(self.__shape, self.__scale) *)
| L68_sleep               (* await asyncio.sleep(delay) *)
| L70_if_random           (* if random.random() < self.__failure_rate: *)
| L71_failed_enter        (* with self.__messages_failed_lock: *)
| L72_failed_incr         (* self.__num_messages_failed += 1: the read *)
| L72_failed_store (v : Z) (* ... and the write of v + 1, v having been read *)
| L72_failed_exit         (* leave the with block *)
| L73_return_False        (* return False *)
| L74_sent_enter          (* with self.__messages_sent_lock: *)
| L75_sent_incr           (* self.__num_messages_sent += 1: the read *)
| L75_sent_store (v : Z)  (* ... and the write of v + 1, v having been read *)
| L75_sent_exit           (* leave the with block *)
| L76_return_True         (* return True *)
| L58_elapsed             (* elapsed = time.perf_counter() - start *)
| L59_if_sent             (* if sent: *)
| L60_elapsed_enter       (* with self.__elapsed_time_lock: *)
| L61_elapsed_add         (* self.__elapsed_time += elapsed *)
| L62_elapsed_count       (* self.__elapsed_time_denominator += 1 *)
| L62_elapsed_exit        (* leave the with block *)
| L63_pop                 (* self.__messages = self.__messages[:-1] *)
| L64_clear_is_sending    (* self.is_sending = False *)
| SendAll_returned
| SendAll_raised (e : PyError).

(** The coroutine's frame: where it is, the locals of [send_all]
    ([start], [sent], [elapsed]), the locals of [send] ([message],
    [delay]) and the answers the outside world still has to give. *)
Record SendAllFrame : Type := mkSendAllFrame {
  pc : SendAllPc;
  start : float;
  sent : bool;
  elapsed : float;
  send_message : option Message;
  delay : float;
  env : list Attempt
}.

Definition goto (l : SendAllPc) (f : SendAllFrame) : SendAllFrame :=
  mkSendAllFrame l (start f) (sent f) (elapsed f) (send_message f) (delay f) (env f).

Definition set_start (v : float) (f : SendAllFrame) : SendAllFrame :=
  mkSendAllFrame (pc f) v (sent f) (elapsed f) (send_message f) (delay f) (env f).

Definition set_sent (v : bool) (f : SendAllFrame) : SendAllFrame :=
  mkSendAllFrame (pc f) (start f) v (elapsed f) (send_message f) (delay f) (env f).

Definition set_elapsed (v : float) (f : SendAllFrame) : SendAllFrame :=
  mkSendAllFrame (pc f) (start f) (sent f) v (send_message f) (delay f) (env f).

Definition set_send_message (v : option Message) (f : SendAllFrame) : SendAllFrame :=
  mkSendAllFrame (pc f) (start f) (sent f) (elapsed f) v (delay f) (env f).

Definition set_delay (v : float) (f : SendAllFrame) : SendAllFrame :=
  mkSendAllFrame (pc f) (start f) (sent f) (elapsed f) (send_message f) v (env f).

Definition set_env (v : list Attempt) (f : SendAllFrame) : SendAllFrame :=
  mkSendAllFrame (pc f) (start f) (sent f) (elapsed f) (send_message f) (delay f) v.

(** The frame of a coroutine that has not run yet. *)
Definition send_all_frame (answers : list Attempt) : SendAllFrame :=
  mkSendAllFrame L54_set_is_sending 0 false 0 None 0 answers.

(** One step of the coroutine. [None]: no step is possible (it waits for
    a lock, has finished, or the outside world has no answer left). *)
Definition send_all_step (s : Sender) (f : SendAllFrame)
  : option (Sender * SendAllFrame) :=
  match pc f with
  | L54_set_is_sending =>
      Some (set_is_sending true s, goto L55_while f)
  | L55_while =>
      if 0 <? length (messages s)
      then Some (s, goto L56_start f)
      else Some (s, goto L64_clear_is_sending f)
  | L56_start =>
      match env f with
      | a :: _ => Some (s, goto L57_call_send (set_start (t_start a) f))
      | [] => None
      end
  | L57_call_send =>
      match last (messages s) with
      | Some m => Some (s, goto L67_gamma (set_send_message (Some m) f))
      | None => Some (s, goto (SendAll_raised IndexError) f)
      end
  | L67_gamma =>
      match env f with
      | a :: _ => Some (s, goto L68_sleep (set_delay (gamma_sample a) f))
      | [] => None
      end
  | L68_sleep =>
      Some (s, goto L70_if_random f)
  | L70_if_random =>
      match env f with
      | a :: _ =>
          if (draw a <? failure_rate s)%float
          then Some (s, goto L71_failed_enter f)
          else Some (s, goto L74_sent_enter f)
      | [] => None
      end
  | L71_failed_enter =>
      s' ← acquire messages_failed_lock_attr s;
      Some (s', goto L72_failed_incr f)
  | L72_failed_incr =>
      Some (s, goto (L72_failed_store (num_messages_failed s)) f)
  | L72_failed_store v =>
      Some (set_num_messages_failed (v + 1) s, goto L72_failed_exit f)
  | L72_failed_exit =>
      Some (release messages_failed_lock_attr s, goto L73_return_False f)
  | L73_return_False =>
      Some (s, goto L58_elapsed (set_sent false f))
  | L74_sent_enter =>
      s' ← acquire messages_sent_lock_attr s;
      Some (s', goto L75_sent_incr f)
  | L75_sent_incr =>
      Some (s, goto (L75_sent_store (num_messages_sent s)) f)
  | L75_sent_store v =>
      Some (set_num_messages_sent (v + 1) s, goto L75_sent_exit f)
  | L75_sent_exit =>
      Some (release messages_sent_lock_attr s, goto L76_return_True f)
  | L76_return_True =>
      Some (s, goto L58_elapsed (set_sent true f))
  | L58_elapsed =>
      match env f with
      | a :: rest =>
          Some (s, goto L59_if_sent
                     (set_elapsed (t_end a - start f)%float (set_env rest f)))
      | [] => None
      end
  | L59_if_sent =>
      if sent f
      then Some (s, goto L60_elapsed_enter f)
      else Some (s, goto L55_while f)
  | L60_elapsed_enter =>
      s' ← acquire elapsed_time_lock_attr s;
      Some (s', goto L61_elapsed_add f)
  | L61_elapsed_add =>
      Some (set_elapsed_time (elapsed_time s + elapsed f)%float s,
            goto L62_elapsed_count f)
  | L62_elapsed_count =>
      Some (set_elapsed_time_denominator (elapsed_time_denominator s + 1) s,
            goto L62_elapsed_exit f)
  | L62_elapsed_exit =>
      Some (release elapsed_time_lock_attr s, goto L63_pop f)
  | L63_pop =>
      Some (set_messages (removelast (messages s)) s, goto L55_while f)
  | L64_clear_is_sending =>
      Some (set_is_sending false s, goto SendAll_returned f)
  | SendAll_returned => None
  | SendAll_raised _ => None
  end.

(** [n] steps of the coroutine with no other thread in between; it stops
    where no step is possible. *)
Fixpoint send_all_run (n : nat) (s : Sender) (f : SendAllFrame)
  : Sender * SendAllFrame :=
  match n with
  | 0 => (s, f)
  | S n' =>
      match send_all_step s f with
      | Some (s', f') => send_all_run n' s' f'
      | None => (s, f)
      end
  end.

(** *** [get_and_reset_stats] (lines 78-82)

    The [with] statement takes one context manager: the value of
    [failed_lock and sent_lock and elapsed_lock]. *)
Definition get_and_reset_stats_lock : LockAttr :=
  py_and (py_and messages_failed_lock_attr messages_sent_lock_attr)
         elapsed_time_lock_attr.

(** The tuple the method returns, in the order of line 82:
    [(messages_failed, elapsed_time, elapsed_time_denominator, messages_sent)]. *)
Definition Stats : Type := (Z * float * Z * Z)%type.

Definition stats_failed (t : Stats) : Z := t.1.1.1.
Definition stats_elapsed_time (t : Stats) : float := t.1.1.2.
Definition stats_elapsed_time_denominator (t : Stats) : Z := t.1.2.
Definition stats_sent (t : Stats) : Z := t.2.

Inductive GetAndResetPc : Type :=
| L79_with_enter          (* with <lock>: *)
| L80_read                (* messages_failed, ... = self.__num_messages_failed, ... *)
| L81_reset               (* self.__num_messages_failed, ... = 0, 0.0, 0, 0 *)
| L82_return              (* return ...: leaves the with block *)
| GetAndReset_returned.

Record GetAndResetFrame : Type := mkGetAndResetFrame {
  gpc : GetAndResetPc;
  stats : Stats
}.

Definition get_and_reset_stats_frame : GetAndResetFrame :=
  mkGetAndResetFrame L79_with_enter (0%Z, 0%float, 0%Z, 0%Z).

Definition get_and_reset_stats_step (s : Sender) (g : GetAndResetFrame)
  : option (Sender * GetAndResetFrame) :=
  match gpc g with
  | L79_with_enter =>
      s' ← acquire get_and_reset_stats_lock s;
      Some (s', mkGetAndResetFrame L80_read (stats g))
  | L80_read =>
      Some (s, mkGetAndResetFrame L81_reset
                 (num_messages_failed s, elapsed_time s,
                  elapsed_time_denominator s, num_messages_sent s))
  | L81_reset =>
      Some (set_num_messages_sent 0
              (set_elapsed_time_denominator 0
                 (set_elapsed_time 0%float
                    (set_num_messages_failed 0 s))),
            mkGetAndResetFrame L82_return (stats g))
  | L82_return =>
      Some (release get_and_reset_stats_lock s,
            mkGetAndResetFrame GetAndReset_returned (stats g))
  | GetAndReset_returned => None
  end.

(** The whole call with no other thread in between: [None] if the lock
    is held. *)
Definition get_and_reset_stats (s : Sender) : option (Sender * Stats) :=
  '(s1, g1) ← get_and_reset_stats_step s get_and_reset_stats_frame;
  '(s2, g2) ← get_and_reset_stats_step s1 g1;
  '(s3, g3) ← get_and_reset_stats_step s2 g2;
  '(s4, g4) ← get_and_reset_stats_step s3 g3;
  Some (s4, stats g4).

(** ** One sender and a client that harvests it

    The sender's coroutine on its thread, and a second thread that calls
    [get_and_reset_stats] again and again and keeps what each call
    returned. *)

Inductive SenderThread : Type :=
| send_all_thread
| harvest_thread.

Record SenderSystem : Type := mkSenderSystem {
  the_sender : Sender;
  send_all_of : SendAllFrame;
  harvest_of : GetAndResetFrame;
  harvested : list Stats
}.

(** The thread the scheduler picks takes one step; if it cannot (a lock
    is held, or it has finished) nothing happens. *)
Definition sender_system_step (t : SenderThread) (y : SenderSystem) : SenderSystem :=
  match t with
  | send_all_thread =>
      match send_all_step (the_sender y) (send_all_of y) with
      | Some (s', f') => mkSenderSystem s' f' (harvest_of y) (harvested y)
      | None => y
      end
  | harvest_thread =>
      match get_and_reset_stats_step (the_sender y) (harvest_of y) with
      | Some (s', g') =>
          match gpc g' with
          | GetAndReset_returned =>
              mkSenderSystem s' (send_all_of y) get_and_reset_stats_frame
                (harvested y ++ [stats g'])
          | _ => mkSenderSystem s' (send_all_of y) g' (harvested y)
          end
      | None => y
      end
  end.

Definition sender_system_run (sched : list SenderThread) (y : SenderSystem)
  : SenderSystem :=
  foldl (fun y t => sender_system_step t y) y sched.

Definition sender_system (s : Sender) (answers : list Attempt) : SenderSystem :=
  mkSenderSystem s (send_all_frame answers) get_and_reset_stats_frame [].

(** ** The monitor (lines 84-113) *)

(** What one pass writes to the window (lines 104-109): the two totals
    and the average delay that is formatted with [.3f]. *)
Record Snapshot : Type := mkSnapshot {
  shown_sent : Z;
  shown_failed : Z;
  shown_average_delay : float
}.

Inductive MonitorPc : Type :=
| L95_last_pass_init                          (* last_pass = False *)
| L96_any (i : nat)                           (* any(...): the generator is at sender i *)
| L97_last_pass                               (* last_pass = not actively_sending *)
| L98_for (i : nat)                           (* for sender in ...: sender i is next *)
| L99_call (i : nat) (g : GetAndResetFrame)   (* inside sender.get_and_reset_stats() *)
| L100_accumulate (i : nat) (t : Stats)       (* lines 100-103 *)
| L104_display                                (* lines 104-109 *)
| L110_sleep                                  (* await asyncio.sleep(self.__update_delay) *)
| L111_prompt                                 (* lines 111-113 *)
| Monitor_returned
| Monitor_raised (e : PyError).

(** The monitor object, the locals of its [monitor] coroutine
    ([last_pass], [actively_sending]), the window as the list of the
    snapshots written to it, and one history variable that the code does
    not have: [entered], the value of [actively_sending] with which each
    pass of the loop body was entered, oldest first. *)
Record Monitor : Type := mkMonitor {
  update_delay : float;
  monitor_num_messages_sent : Z;
  monitor_num_messages_failed : Z;
  monitor_total_elapsed_time : float;
  monitor_elapsed_time_denominator : Z;
  mpc : MonitorPc;
  last_pass : bool;
  actively_sending : bool;
  window : list Snapshot;
  entered : list bool
}.

(** [Monitor.__init__] (lines 85-92). *)
Definition Monitor_init (update_delay : float) : Monitor :=
  mkMonitor update_delay 0 0 0 0 L95_last_pass_init false false [] [].

Definition mgoto (l : MonitorPc) (m : Monitor) : Monitor :=
  mkMonitor (update_delay m) (monitor_num_messages_sent m)
    (monitor_num_messages_failed m) (monitor_total_elapsed_time m)
    (monitor_elapsed_time_denominator m) l (last_pass m) (actively_sending m)
    (window m) (entered m).

Definition set_last_pass (v : bool) (m : Monitor) : Monitor :=
  mkMonitor (update_delay m) (monitor_num_messages_sent m)
    (monitor_num_messages_failed m) (monitor_total_elapsed_time m)
    (monitor_elapsed_time_denominator m) (mpc m) v (actively_sending m)
    (window m) (entered m).

Definition set_actively_sending (v : bool) (m : Monitor) : Monitor :=
  mkMonitor (update_delay m) (monitor_num_messages_sent m)
    (monitor_num_messages_failed m) (monitor_total_elapsed_time m)
    (monitor_elapsed_time_denominator m) (mpc m) (last_pass m) v
    (window m) (entered m).

Definition set_entered (v : list bool) (m : Monitor) : Monitor :=
  mkMonitor (update_delay m) (monitor_num_messages_sent m)
    (monitor_num_messages_failed m) (monitor_total_elapsed_time m)
    (monitor_elapsed_time_denominator m) (mpc m) (last_pass m)
    (actively_sending m) (window m) v.

Definition set_window (v : list Snapshot) (m : Monitor) : Monitor :=
  mkMonitor (update_delay m) (monitor_num_messages_sent m)
    (monitor_num_messages_failed m) (monitor_total_elapsed_time m)
    (monitor_elapsed_time_denominator m) (mpc m) (last_pass m)
    (actively_sending m) v (entered m).

(** Lines 100-103: the four running totals take in one harvest. *)
Definition accumulate (t : Stats) (m : Monitor) : Monitor :=
  mkMonitor (update_delay m)
    (monitor_num_messages_sent m + stats_sent t)
    (monitor_num_messages_failed m + stats_failed t)
    (monitor_total_elapsed_time m + stats_elapsed_time t)%float
    (monitor_elapsed_time_denominator m + stats_elapsed_time_denominator t)
    (mpc m) (last_pass m) (actively_sending m) (window m) (entered m).

(** Line 107: [total / denominator if denominator != 0 else 0]. *)
Definition average_delay (m : Monitor) : Result float :=
  if (monitor_elapsed_time_denominator m =? 0)%Z then Ok 0%float
  else
    let* d := float_of_int (monitor_elapsed_time_denominator m) in
    float_truediv (monitor_total_elapsed_time m) d.

(** One step of the monitor's coroutine over the tracked senders, which
    it shares with the senders' threads. The statements of lines 100-103
    and of lines 104-109 touch only what the monitor owns and are one
    step each. *)
Definition monitor_step (senders : list Sender) (m : Monitor)
  : option (list Sender * Monitor) :=
  match mpc m with
  | L95_last_pass_init =>
      Some (senders, mgoto (L96_any 0) (set_last_pass false m))
  | L96_any i =>
      match senders !! i with
      | Some s =>
          if is_sending s
          then Some (senders, mgoto L97_last_pass (set_actively_sending true m))
          else Some (senders, mgoto (L96_any (i + 1)) m)
      | None =>
          if negb (last_pass m)
          then Some (senders, mgoto L97_last_pass (set_actively_sending false m))
          else Some (senders, mgoto L111_prompt (set_actively_sending false m))
      end
  | L97_last_pass =>
      Some (senders,
            mgoto (L98_for 0)
              (set_entered (entered m ++ [actively_sending m])
                 (set_last_pass (negb (actively_sending m)) m)))
  | L98_for i =>
      match senders !! i with
      | Some _ => Some (senders, mgoto (L99_call i get_and_reset_stats_frame) m)
      | None => Some (senders, mgoto L104_display m)
      end
  | L99_call i g =>
      s ← senders !! i;
      '(s', g') ← get_and_reset_stats_step s g;
      match gpc g' with
      | GetAndReset_returned =>
          Some (<[i := s']> senders, mgoto (L100_accumulate i (stats g')) m)
      | _ => Some (<[i := s']> senders, mgoto (L99_call i g') m)
      end
  | L100_accumulate i t =>
      Some (senders, mgoto (L98_for (i + 1)) (accumulate t m))
  | L104_display =>
      match average_delay m with
      | Ok avg =>
          Some (senders,
                mgoto L110_sleep
                  (set_window
                     (window m ++ [mkSnapshot (monitor_num_messages_sent m)
                                     (monitor_num_messages_failed m) avg])
                     m))
      | Raise e => Some (senders, mgoto (Monitor_raised e) m)
      end
  | L110_sleep =>
      Some (senders, mgoto (L96_any 0) m)
  | L111_prompt =>
      Some (senders, mgoto Monitor_returned m)
  | Monitor_returned => None
  | Monitor_raised _ => None
  end.

(** ** The program (lines 115-132) *)

Inductive ThreadId : Type :=
| sender_thread (i : nat)
| monitor_thread.

(** The senders are shared between their threads and the monitor: thread
    [i] and the monitor's [tracked_senders[i]] are the same object,
    [senders !! i]. *)
Record World : Type := mkWorld {
  senders : list Sender;
  send_alls : list SendAllFrame;
  monitor : Monitor
}.

Definition world_step (t : ThreadId) (w : World) : World :=
  match t with
  | sender_thread i =>
      match senders w !! i, send_alls w !! i with
      | Some s, Some f =>
          match send_all_step s f with
          | Some (s', f') =>
              mkWorld (<[i := s']> (senders w)) (<[i := f']> (send_alls w)) (monitor w)
          | None => w
          end
      | _, _ => w
      end
  | monitor_thread =>
      match monitor_step (senders w) (monitor w) with
      | Some (ss, m') => mkWorld ss (send_alls w) m'
      | None => w
      end
  end.

Definition world_run (sched : list ThreadId) (w : World) : World :=
  foldl (fun w t => world_step t w) w sched.

(** [main] up to the point where all threads exist: the workload is
    partitioned, one sender is built per chunk, and one coroutine per
    sender and the monitor's are ready to run. [produced] is what
    [producer.produce()] returned, [answers i] what the outside world will
    answer to sender [i]. *)
Definition main (produced : list Message) (args_senders : Z)
    (args_delay args_failure_rate args_update_delay : float)
    (answers : nat -> list Attempt) : Result World :=
  let* chunked_messages := array_split produced args_senders in
  let* senders := mapM (Sender_init args_delay args_failure_rate) chunked_messages in
  Ok (mkWorld senders
        (map (fun i => send_all_frame (answers i)) (seq 0 (length senders)))
        (Monitor_init args_update_delay)).

(** ** Concrete inputs used in examples *)

Definition msg1 : Message := mkMessage "hello" "5550100".

Definition sender1 : Sender :=
  mkSender 1 1 0.5 [msg1] false 0 false 0 false 0 0 false.

(** One sender: it starts, the monitor makes a whole pass, the sender
    runs to its end, the monitor runs to its end. *)
Definition sched_demo : list ThreadId :=
  repeat (sender_thread 0) 3 ++ repeat monitor_thread 11
  ++ repeat (sender_thread 0) 20 ++ repeat monitor_thread 30.

(** Cutting a list into consecutive pieces of given sizes: what the
    slices between cumulative division points amount to. *)
Fixpoint split_sizes {A} (l : list A) (sizes : list nat) : list (list A) :=
  match sizes with
  | [] => []
  | n :: sizes' => take n l :: split_sizes (drop n l) sizes'
  end.

(** [random.random()] answers with a float in [[0, 1)]. *)
Definition draw_in_range (a : Attempt) : Prop :=
  (0 <=? draw a)%float = true /\ (draw a <? 1)%float = true.

(** Where a coroutine can be while every attempt so far has failed. *)
Definition before_any_success (f : SendAllFrame) : Prop :=
  match pc f with
  | L54_set_is_sending | L55_while | L56_start | L57_call_send | L67_gamma
  | L68_sleep | L70_if_random | L71_failed_enter | L72_failed_incr
  | L72_failed_store _ | L72_failed_exit | L73_return_False => True
  | L58_elapsed | L59_if_sent => sent f = false
  | _ => False
  end.

Definition fail_a : Attempt := mkAttempt 10 0 0.25 11.
Definition succeed_a : Attempt := mkAttempt 20 0 0.75 22.5.

(** A sender with one message whose every send fails. *)
Definition sender_always_failing : Sender :=
  mkSender 1 1 1 [msg1] false 0 false 0 false 0 0 false.


(** *** Counting over a run of a sender and its harvesting client *)

(** What the client has been handed so far, per counter. *)
Definition harvested_sent (y : SenderSystem) : Z :=
  foldr (fun t acc => (stats_sent t + acc)%Z) 0%Z (harvested y).

Definition harvested_failed (y : SenderSystem) : Z :=
  foldr (fun t acc => (stats_failed t + acc)%Z) 0%Z (harvested y).

Definition harvested_elapsed_time_denominator (y : SenderSystem) : Z :=
  foldr (fun t acc => (stats_elapsed_time_denominator t + acc)%Z) 0%Z (harvested y).

(** 1 while the coroutine has counted the message it is sending as sent
    (line 75) and has not yet removed it from [messages] (line 63). *)
Definition in_flight (f : SendAllFrame) : Z :=
  match pc f with
  | L75_sent_exit | L76_return_True | L60_elapsed_enter | L61_elapsed_add
  | L62_elapsed_count | L62_elapsed_exit | L63_pop => 1
  | L58_elapsed | L59_if_sent => if sent f then 1 else 0
  | _ => 0
  end.

(** The coroutine is inside the loop body. *)
Definition in_loop_body (f : SendAllFrame) : Prop :=
  match pc f with
  | L54_set_is_sending | L55_while | L64_clear_is_sending
  | SendAll_returned | SendAll_raised _ => False
  | _ => True
  end.

(** Schedules in which a call of [get_and_reset_stats] is never
    interrupted: the sender's coroutine takes single steps, the client
    takes the four steps of a call in a row. *)
Inductive Turn : Type :=
| one_step
| whole_harvest.

Definition turn_threads (t : Turn) : list SenderThread :=
  match t with
  | one_step => [send_all_thread]
  | whole_harvest => repeat harvest_thread 4
  end.

Definition uninterrupted (turns : list Turn) : list SenderThread :=
  flat_map turn_threads turns.

(** What line 75 has read is still what the counter holds. *)
Definition sent_read_current (s : Sender) (f : SendAllFrame) : Prop :=
  match pc f with
  | L75_sent_store v => v = num_messages_sent s
  | _ => True
  end.

(** A sender with one message whose sends never fail. *)
Definition sender_reliable : Sender :=
  mkSender 1 1 0 [msg1] false 0 false 0 false 0 0 false.

(** The coroutine reaches line 75, the client enters
    [get_and_reset_stats] and reads the counters, the coroutine counts
    the message (the read and the write of line 75), the client resets
    the counters; then both finish and the client harvests once more. *)
Definition sched_lost_update : list SenderThread :=
  repeat send_all_thread 8 ++ repeat harvest_thread 2
  ++ repeat send_all_thread 2
  ++ repeat harvest_thread 2 ++ repeat send_all_thread 11
  ++ repeat harvest_thread 4.

(** *** What holds of the monitor throughout *)





(** *** What a constructor leaves behind *)

(** A sender as [Sender.__init__] leaves it: nothing counted, no lock
    held, not sending. *)
Definition fresh (fr : float) (s : Sender) : Prop :=
  failure_rate s = fr /\
  messages_sent_lock s = false /\ num_messages_sent s = 0%Z /\
  messages_failed_lock s = false /\ num_messages_failed s = 0%Z /\
  elapsed_time_lock s = false /\ elapsed_time s = 0%float /\
  elapsed_time_denominator s = 0%Z /\ is_sending s = false.

(** The counters of a sender after line 81. *)
Definition reset_stats (s : Sender) : Sender :=
  set_num_messages_sent 0
    (set_elapsed_time_denominator 0
       (set_elapsed_time 0%float (set_num_messages_failed 0 s))).

(** *** The attempts a drain loop makes *)

(** Line 70 for one attempt: the send fails. *)
Definition fails (fr : float) (a : Attempt) : bool := (draw a <? fr)%float.

(** [answers] are exactly the attempts a loop with [K] pending messages
    makes: each successful attempt takes one message off, and the last
    message goes with the last attempt. *)
Fixpoint drains (fr : float) (answers : list Attempt) (K : nat) : bool :=
  match answers, K with
  | [], 0 => true
  | a :: rest, S K' =>
      if fails fr a then drains fr rest (S K') else drains fr rest K'
  | _, _ => false
  end.

(** Steps the loop takes over these attempts: 13 for a pass whose send
    fails, 18 for one whose send succeeds. *)
Fixpoint drain_steps (fr : float) (answers : list Attempt) : nat :=
  match answers with
  | [] => 0
  | a :: rest => (if fails fr a then 13 else 18) + drain_steps fr rest
  end.

Fixpoint failures (fr : float) (answers : list Attempt) : nat :=
  match answers with
  | [] => 0
  | a :: rest => (if fails fr a then 1 else 0) + failures fr rest
  end.

(** The elapsed times of the successful attempts, added up in order as
    line 61 does. *)
Fixpoint elapsed_total (fr : float) (answers : list Attempt) (acc : float)
  : float :=
  match answers with
  | [] => acc
  | a :: rest =>
      elapsed_total fr rest
        (if fails fr a then acc else (acc + (t_end a - t_start a))%float)
  end.

(** *** Where a coroutine is, and what that means for the sender *)

(** Line 54 has been executed and line 64 has not. *)
Definition drain_loop_running (f : SendAllFrame) : bool :=
  match pc f with
  | L54_set_is_sending | SendAll_returned | SendAll_raised _ => false
  | _ => true
  end.

(** Inside [with self.__messages_sent_lock]. *)
Definition holds_sent_lock (f : SendAllFrame) : bool :=
  match pc f with
  | L75_sent_incr | L75_sent_store _ | L75_sent_exit => true
  | _ => false
  end.

(** Inside [with self.__messages_failed_lock]. *)
Definition holds_failed_lock (f : SendAllFrame) : bool :=
  match pc f with
  | L72_failed_incr | L72_failed_store _ | L72_failed_exit => true
  | _ => false
  end.

(** Inside [with self.__elapsed_time_lock]. *)
Definition holds_elapsed_lock (f : SendAllFrame) : bool :=
  match pc f with
  | L61_elapsed_add | L62_elapsed_count | L62_elapsed_exit => true
  | _ => false
  end.

(** The loop condition has been found false. *)
Definition loop_left (f : SendAllFrame) : Prop :=
  match pc f with
  | L64_clear_is_sending | SendAll_returned => True
  | _ => False
  end.

Definition sender_inv (s : Sender) (f : SendAllFrame) : Prop :=
  is_sending s = drain_loop_running f /\
  messages_sent_lock s = holds_sent_lock f /\
  messages_failed_lock s = holds_failed_lock f /\
  (in_loop_body f -> messages s <> []) /\
  (loop_left f -> messages s = []) /\
  (forall e, pc f <> SendAll_raised e).

(** Every harvest of the run begins while the coroutine is outside
    [with self.__messages_sent_lock] (lines 74-75), as it would have to
    if line 79 took that lock. *)
Fixpoint harvests_outside_sent_block (turns : list Turn) (y : SenderSystem)
  : bool :=
  match turns with
  | [] => true
  | t :: turns' =>
      match t with
      | one_step => true
      | whole_harvest => negb (holds_sent_lock (send_all_of y))
      end
      && harvests_outside_sent_block turns'
           (sender_system_run (turn_threads t) y)
  end.

(** Inside the [with] block of [get_and_reset_stats]. *)
Definition inside_harvest (g : GetAndResetFrame) : bool :=
  match gpc g with
  | L80_read | L81_reset | L82_return => true
  | _ => false
  end.

(** 1 while the coroutine has counted a send in the elapsed-time
    denominator (line 62) and not yet removed the message (line 63). *)
Definition counted_not_removed (f : SendAllFrame) : Z :=
  match pc f with
  | L62_elapsed_exit | L63_pop => 1
  | _ => 0
  end.

(** The denominator a harvest has taken out of the sender (line 81) and
    not yet returned to its caller. *)
Definition harvest_in_hand (g : GetAndResetFrame) : Z :=
  match gpc g with
  | L82_return => stats_elapsed_time_denominator (stats g)
  | _ => 0
  end.

Definition elapsed_inv (K : Z) (y : SenderSystem) : Prop :=
  elapsed_time_lock (the_sender y)
  = holds_elapsed_lock (send_all_of y) || inside_harvest (harvest_of y) /\
  holds_elapsed_lock (send_all_of y) && inside_harvest (harvest_of y) = false /\
  gpc (harvest_of y) <> GetAndReset_returned /\
  (gpc (harvest_of y) = L81_reset ->
   stats_elapsed_time_denominator (stats (harvest_of y))
   = elapsed_time_denominator (the_sender y)) /\
  (harvested_elapsed_time_denominator y + harvest_in_hand (harvest_of y)
   + elapsed_time_denominator (the_sender y)
   + Z.of_nat (length (messages (the_sender y)))
   = K + counted_not_removed (send_all_of y))%Z /\
  (in_loop_body (send_all_of y) -> messages (the_sender y) <> []).

(** *** Counts that never go down *)

Definition stats_nonneg (t : Stats) : Prop :=
  (0 <= stats_failed t /\ 0 <= stats_elapsed_time_denominator t /\
   0 <= stats_sent t)%Z.

Definition counters_nonneg (s : Sender) : Prop :=
  (0 <= num_messages_sent s /\ 0 <= num_messages_failed s /\
   0 <= elapsed_time_denominator s)%Z.

(** The monitor's totals have grown from [m] to [m']. *)
Definition totals_le (m m' : Monitor) : Prop :=
  (monitor_num_messages_sent m <= monitor_num_messages_sent m' /\
   monitor_num_messages_failed m <= monitor_num_messages_failed m' /\
   monitor_elapsed_time_denominator m <= monitor_elapsed_time_denominator m')%Z.

(** A snapshot shows counts between zero and the monitor's totals. *)
Definition shown_within (m : Monitor) (sn : Snapshot) : Prop :=
  (0 <= shown_sent sn <= monitor_num_messages_sent m /\
   0 <= shown_failed sn <= monitor_num_messages_failed m)%Z.

(** Later snapshots show no less than earlier ones. *)
Definition never_decreasing (win : list Snapshot) : Prop :=
  forall i j a b, i <= j -> win !! i = Some a -> win !! j = Some b ->
                  (shown_sent a <= shown_sent b /\
                   shown_failed a <= shown_failed b)%Z.

Definition monitor_nonneg (m : Monitor) : Prop :=
  (0 <= monitor_num_messages_sent m /\ 0 <= monitor_num_messages_failed m /\
   0 <= monitor_elapsed_time_denominator m)%Z /\
  match mpc m with
  | L99_call _ g => stats_nonneg (stats g)
  | L100_accumulate _ t => stats_nonneg t
  | _ => True
  end /\
  Forall (shown_within m) (window m) /\
  never_decreasing (window m).

(** What lines 72 and 75 have read and not yet written back is not
    negative. *)
Definition read_nonneg (f : SendAllFrame) : Prop :=
  match pc f with
  | L72_failed_store v | L75_sent_store v => (0 <= v)%Z
  | _ => True
  end.

Definition world_nonneg (w : World) : Prop :=
  Forall counters_nonneg (senders w) /\ Forall read_nonneg (send_alls w) /\
  monitor_nonneg (monitor w).

(** *** The senders of a world and their coroutines *)

(** Every sender has its coroutine, and each pair is as [sender_inv]
    says. *)
Definition world_paired (w : World) : Prop :=
  length (send_alls w) = length (senders w) /\
  forall i s f, senders w !! i = Some s -> send_alls w !! i = Some f ->
                sender_inv s f.

(** Every coroutine has executed line 54. *)
Definition all_started (w : World) : Prop :=
  forall i f, send_alls w !! i = Some f -> pc f <> L54_set_is_sending.

Definition all_returned (w : World) : Prop :=
  forall i f, send_alls w !! i = Some f -> pc f = SendAll_returned.

(** What the monitor knows from its test of the loop condition: the
    senders the generator of line 96 has passed have returned, and when
    the loop has been left, all have. *)
Definition scan_inv (w : World) : Prop :=
  all_started w /\
  (forall i, mpc (monitor w) = L96_any i ->
             forall j f, j < i -> send_alls w !! j = Some f ->
                         pc f = SendAll_returned) /\
  (mpc (monitor w) = L111_prompt \/ mpc (monitor w) = Monitor_returned ->
   all_returned w).

(** The parts of [sched_demo]: the sender starts; then the monitor makes
    a pass, the sender runs to its end and the monitor runs to its end. *)
Definition sched_start : list ThreadId := repeat (sender_thread 0) 3.

Definition sched_after_start : list ThreadId :=
  repeat monitor_thread 11 ++ repeat (sender_thread 0) 20
  ++ repeat monitor_thread 30.

Definition world_demo : World :=
  mkWorld [sender_reliable] [send_all_frame [succeed_a]] (Monitor_init 1).

(** *** The elapsed-time denominator across the whole program *)

(** The harvest the monitor is making on sender [j], if it is making
    one; otherwise a call that has not begun. *)
Definition harvest_on (m : Monitor) (j : nat) : GetAndResetFrame :=
  match mpc m with
  | L99_call i g => if decide (i = j) then g else get_and_reset_stats_frame
  | _ => get_and_reset_stats_frame
  end.

(** What a sender still stands for in the denominator: what it has
    counted and not handed over, and its pending messages. *)
Definition denominator_due (s : Sender) (f : SendAllFrame) : Z :=
  (elapsed_time_denominator s + Z.of_nat (length (messages s))
   - counted_not_removed f)%Z.

(** The sum of [due] over the senders and their coroutines. *)
Fixpoint sum_senders (due : Sender -> SendAllFrame -> Z)
    (ss : list Sender) (fs : list SendAllFrame) : Z :=
  match ss, fs with
  | s :: ss', f :: fs' => (due s f + sum_senders due ss' fs')%Z
  | _, _ => 0%Z
  end.

(** The denominator the monitor has taken out of a sender and not yet
    added to its total. *)
Definition monitor_in_hand (m : Monitor) : Z :=
  match mpc m with
  | L99_call _ g => harvest_in_hand g
  | L100_accumulate _ t => stats_elapsed_time_denominator t
  | _ => 0%Z
  end.

Definition world_elapsed_inv (N : Z) (w : World) : Prop :=
  (forall j s f,
      senders w !! j = Some s -> send_alls w !! j = Some f ->
      elapsed_inv
        (denominator_due s f + harvest_in_hand (harvest_on (monitor w) j))
        (mkSenderSystem s f (harvest_on (monitor w) j) [])) /\
  (sum_senders denominator_due (senders w) (send_alls w)
   + monitor_in_hand (monitor w)
   + monitor_elapsed_time_denominator (monitor w) = N)%Z.

(** *** What the last pass leaves behind *)

(** Nothing is left in the sender for a harvest to take. *)
Definition stats_harvested (s : Sender) : Prop :=
  num_messages_sent s = 0%Z /\ num_messages_failed s = 0%Z /\
  elapsed_time s = 0%float /\ elapsed_time_denominator s = 0%Z.

Definition harvested_below (i : nat) (w : World) : Prop :=
  forall j s, j < i -> senders w !! j = Some s -> stats_harvested s.

Definition all_harvested (w : World) : Prop :=
  forall j s, senders w !! j = Some s -> stats_harvested s.

(** A pass entered with no sender sending, when all had started, is a
    pass over senders that have returned; what it has harvested stays
    harvested. *)
Definition last_pass_inv (w : World) : Prop :=
  let m := monitor w in
  (mpc m = L97_last_pass -> actively_sending m = false -> all_returned w) /\
  (last_pass m = true -> mpc m <> L95_last_pass_init ->
   mpc m <> L97_last_pass -> all_returned w) /\
  (mpc m = L111_prompt \/ mpc m = Monitor_returned -> last_pass m = true) /\
  (last_pass m = true ->
   match mpc m with
   | L95_last_pass_init | L97_last_pass => True
   | L98_for i => harvested_below i w
   | L99_call i g =>
       harvested_below i w /\
       (gpc g = L82_return ->
        forall s, senders w !! i = Some s -> stats_harvested s)
   | L100_accumulate i _ => harvested_below (i + 1) w
   | _ => all_harvested w
   end).

(** *** The sent count when the senders run before the monitor *)

(** What a sender stands for in the sent total: what it has counted,
    and its pending messages, the one it has counted and not yet removed
    taken once. *)
Definition sent_due (s : Sender) (f : SendAllFrame) : Z :=
  (num_messages_sent s + Z.of_nat (length (messages s)) - in_flight f)%Z.

(** In every coroutine, what line 75 has read is what the counter
    holds. *)
Definition world_read_current (w : World) : Prop :=
  forall i s f, senders w !! i = Some s -> send_alls w !! i = Some f ->
                sent_read_current s f.

(** *** A pass of the monitor with no other thread in between *)

(** What [get_and_reset_stats] returns for a sender. *)
Definition stats_of (s : Sender) : Stats :=
  (num_messages_failed s, elapsed_time s, elapsed_time_denominator s,
   num_messages_sent s).

(** Lines 98-103 over the senders [ss], in order. *)
Definition accumulate_all (ss : list Sender) (m : Monitor) : Monitor :=
  foldl (fun m s => accumulate (stats_of s) m) m ss.

Definition sum_of (c : Sender -> Z) (ss : list Sender) : Z :=
  foldr (fun s acc => (c s + acc)%Z) 0%Z ss.

(** * Properties *)

(** ** Examples *)

Example array_split_7_3 :
  array_split [1; 2; 3; 4; 5; 6; 7] 3 = Ok [[1; 2; 3]; [4; 5]; [6; 7]].
Proof. reflexivity. Qed.

Example array_split_2_4 :
  array_split [1; 2] 4 = Ok [[1]; [2]; []; []].
Proof. reflexivity. Qed.

Example Sender_init_one :
  exists s, Sender_init 1 0.5 [] = Ok s /\ shape s = 1%float /\ scale s = 1%float.
Proof. eexists. split; [vm_compute; reflexivity | split; reflexivity]. Qed.

Example Sender_init_zero : Sender_init 0 0 [] = Raise ZeroDivisionError.
Proof. reflexivity. Qed.

Example send_all_fail_then_succeed :
  let '(s, f) := send_all_run 100 sender1
                   (send_all_frame [mkAttempt 10 0 0.25 11; mkAttempt 20 0 0.75 22.5]) in
  (pc f, messages s, num_messages_sent s, num_messages_failed s,
   elapsed_time s, elapsed_time_denominator s, is_sending s)
  = (SendAll_returned, [], 1%Z, 1%Z, 2.5%float, 1%Z, false).
Proof. vm_compute. reflexivity. Qed.

Example demo_world :
  match main [msg1] 1 1 0 1 (fun _ => [succeed_a]) with
  | Ok w => let w' := world_run sched_demo w in
            (mpc (monitor w'), entered (monitor w'), window (monitor w'))
  | Raise _ => (Monitor_returned, [], [])
  end = (Monitor_returned, [true; false],
         [mkSnapshot 0 0 0; mkSnapshot 1 0 2.5]).
Proof. vm_compute. reflexivity. Qed.

(** ** Partitioning *)

Section Partition.
Context {A : Type}.

Lemma sub_arys_split_sizes (ary : list A) (sizes : list nat) (o : nat) :
  map (fun i => slice ary (nth i (o :: cumsum_from o sizes) 0)
                          (nth (i + 1) (o :: cumsum_from o sizes) 0))
      (seq 0 (length sizes))
  = split_sizes (drop o ary) sizes.
Proof.
  revert o. induction sizes as [|n sizes IH]; intros o; simpl; [done|].
  f_equal.
  - unfold slice. f_equal. lia.
  - rewrite <- seq_shift, map_map, drop_drop, <- (IH (o + n)).
    apply map_ext. intros i. rewrite !Nat.add_1_r. reflexivity.
Qed.

Lemma length_split_sizes (l : list A) (sizes : list nat) :
  length (split_sizes l sizes) = length sizes.
Proof. revert l. induction sizes; intros l; simpl; [done|]. by rewrite IHsizes. Qed.

Lemma lengths_split_sizes (l : list A) (sizes : list nat) :
  sum_list sizes <= length l ->
  map length (split_sizes l sizes) = sizes.
Proof.
  revert l. induction sizes as [|n sizes IH]; intros l Hle; simpl in *; [done|].
  rewrite length_take, IH; [f_equal; lia|]. rewrite length_drop. lia.
Qed.

Lemma concat_split_sizes (l : list A) (sizes : list nat) :
  sum_list sizes = length l ->
  concat (split_sizes l sizes) = l.
Proof.
  revert l. induction sizes as [|n sizes IH]; intros l Hsum; simpl in *.
  - symmetry. apply nil_length_inv. done.
  - rewrite IH; [apply take_drop|]. rewrite length_drop. lia.
Qed.

Lemma array_split_sections (ary : list A) (S : Z) :
  (1 <= S)%Z ->
  array_split ary S
  = Ok (split_sizes ary
          (repeat (length ary / Z.to_nat S + 1) (length ary mod Z.to_nat S)
           ++ repeat (length ary / Z.to_nat S)
                     (Z.to_nat S - length ary mod Z.to_nat S))).
Proof.
  intros HS. unfold array_split.
  destruct (Z.leb_spec S 0) as [|_]; [lia|].
  f_equal. unfold cumsum. cbn [app cumsum_from]. cbn [Nat.add].
  set (sizes := repeat _ _ ++ repeat _ _).
  replace (Z.to_nat S) with (length sizes) at 1.
  - by rewrite sub_arys_split_sizes, drop_0.
  - unfold sizes. rewrite length_app, !repeat_length.
    pose proof (Nat.mod_upper_bound (length ary) (Z.to_nat S)). lia.
Qed.
End Partition.

Lemma sum_list_repeat (a n : nat) : sum_list (repeat a n) = n * a.
Proof. induction n; simpl; lia. Qed.

Lemma section_sizes_sum (N S : nat) :
  S <> 0 ->
  sum_list (repeat (N / S + 1) (N mod S) ++ repeat (N / S) (S - N mod S)) = N.
Proof.
  intros HS. rewrite sum_list_with_app, !sum_list_repeat.
  pose proof (Nat.mod_upper_bound N S HS) as Hlt.
  pose proof (Nat.div_mod_eq N S) as Heq.
  nia.
Qed.

Lemma section_sizes_even (N S n : nat) :
  In n (repeat (N / S + 1) (N mod S) ++ repeat (N / S) (S - N mod S)) ->
  n = N / S \/ n = N / S + 1.
Proof.
  rewrite in_app_iff. intros [H|H]; apply repeat_spec in H; auto.
Qed.

(** ** The constructor *)

Lemma float_of_int_1 : float_of_int 1 = Ok 1%float.
Proof. reflexivity. Qed.

Lemma Sender_init_Ok (d fr : float) (ms : list Message) (s : Sender) :
  Sender_init d fr ms = Ok s ->
  exists sh sc, s = mkSender sh sc fr ms false 0 false 0 false 0 0 false.
Proof.
  unfold Sender_init.
  destruct (float_pow2 d) as [sq|]; cbn [bind]; [|discriminate].
  rewrite float_of_int_1; cbn [bind].
  destruct (float_truediv sq 1) as [sh|]; cbn [bind]; [|discriminate].
  destruct (float_truediv 1 d) as [sc|]; cbn [bind]; [|discriminate].
  intros [= <-]. eauto.
Qed.

(** ** The sender's coroutine running alone *)

Lemma send_all_run_add (n k : nat) (s : Sender) (f : SendAllFrame) :
  send_all_run (n + k) s f
  = send_all_run k (send_all_run n s f).1 (send_all_run n s f).2.
Proof.
  revert s f. induction n as [|n IH]; intros s f; [done|].
  cbn [Nat.add send_all_run].
  destruct (send_all_step s f) as [[s' f']|] eqn:Hstep; [apply IH|].
  cbn [fst snd]. destruct k; [done|]. cbn [send_all_run]. by rewrite Hstep.
Qed.

Lemma send_all_run_S (n : nat) (s s' : Sender) (f f' : SendAllFrame) :
  send_all_step s f = Some (s', f') ->
  send_all_run (S n) s f = send_all_run n s' f'.
Proof. intros H. cbn [send_all_run]. by rewrite H. Qed.

(** One step of a run, the branch being decided by the given facts. *)
Ltac run_step Hlen Hlast Hdraw :=
  erewrite send_all_run_S;
  [| unfold send_all_step;
     cbn [pc goto set_start set_sent set_elapsed set_send_message set_delay
          set_env env start sent elapsed send_message delay messages
          failure_rate mbind option_bind acquire release locked set_lock
          messages_failed_lock messages_sent_lock elapsed_time_lock
          set_num_messages_failed set_num_messages_sent set_elapsed_time
          set_elapsed_time_denominator set_messages set_is_sending
          num_messages_failed num_messages_sent elapsed_time
          elapsed_time_denominator is_sending shape scale];
     rewrite ?Hlen, ?Hlast, ?Hdraw; reflexivity].

Lemma iteration_failed (s : Sender) (f : SendAllFrame) (a : Attempt)
    (rest : list Attempt) (ms : list Message) (m : Message) :
  pc f = L55_while ->
  messages s = ms ++ [m] ->
  env f = a :: rest ->
  messages_failed_lock s = false ->
  (draw a <? failure_rate s)%float = true ->
  send_all_run 13 s f
  = (set_num_messages_failed (num_messages_failed s + 1) s,
     mkSendAllFrame L55_while (t_start a) false (t_end a - t_start a)%float
       (Some m) (gamma_sample a) rest).
Proof.
  intros Hpc Hms Henv Hlock Hdraw.
  assert (Hlen : (0 <? length (ms ++ [m])) = true)
    by (rewrite length_app; apply Nat.ltb_lt; simpl; lia).
  pose proof (last_snoc m ms) as Hlast.
  destruct s, f. cbn in Hpc, Hms, Henv, Hlock, Hdraw. subst.
  do 13 run_step Hlen Hlast Hdraw. reflexivity.
Qed.

Lemma iteration_sent (s : Sender) (f : SendAllFrame) (a : Attempt)
    (rest : list Attempt) (ms : list Message) (m : Message) :
  pc f = L55_while ->
  messages s = ms ++ [m] ->
  env f = a :: rest ->
  messages_sent_lock s = false ->
  elapsed_time_lock s = false ->
  (draw a <? failure_rate s)%float = false ->
  send_all_run 18 s f
  = (set_messages ms
       (set_elapsed_time_denominator (elapsed_time_denominator s + 1)
          (set_elapsed_time (elapsed_time s + (t_end a - t_start a))%float
             (set_num_messages_sent (num_messages_sent s + 1) s))),
     mkSendAllFrame L55_while (t_start a) true (t_end a - t_start a)%float
       (Some m) (gamma_sample a) rest).
Proof.
  intros Hpc Hms Henv Hlock1 Hlock2 Hdraw.
  assert (Hlen : (0 <? length (ms ++ [m])) = true)
    by (rewrite length_app; apply Nat.ltb_lt; simpl; lia).
  pose proof (last_snoc m ms) as Hlast.
  destruct s, f. cbn in Hpc, Hms, Henv, Hlock1, Hlock2, Hdraw. subst.
  do 18 run_step Hlen Hlast Hdraw.
  cbn [send_all_run]. by rewrite removelast_last.
Qed.

(** ** Partitioning the workload *)

(** C7. For every [S >= 1] and every message sequence, [array_split]
    returns exactly [S] sub-sequences; their sizes sum to the number of
    messages and differ pairwise by at most one; and their concatenation
    is the original sequence, so that as multisets nothing is duplicated
    or dropped. *)
Theorem array_split_partitions (ary : list Message) (S : Z) :
  (1 <= S)%Z ->
  exists chunks,
    array_split ary S = Ok chunks /\
    length chunks = Z.to_nat S /\
    sum_list (map length chunks) = length ary /\
    (forall c1 c2, In c1 chunks -> In c2 chunks -> length c1 <= length c2 + 1) /\
    concat chunks = ary /\
    Permutation (concat chunks) ary.
Proof.
  intros HS. eexists. split; [by apply array_split_sections|].
  set (n := Z.to_nat S). set (sizes := repeat _ _ ++ _).
  assert (Hn : n <> 0) by lia.
  pose proof (section_sizes_sum (length ary) n Hn) as Hsum. fold sizes in Hsum.
  assert (Hlens : map length (split_sizes ary sizes) = sizes)
    by (apply lengths_split_sizes; lia).
  assert (Hcat : concat (split_sizes ary sizes) = ary)
    by (by apply concat_split_sizes).
  repeat split.
  - rewrite length_split_sizes. unfold sizes. rewrite length_app, !repeat_length.
    pose proof (Nat.mod_upper_bound (length ary) n Hn). lia.
  - by rewrite Hlens.
  - intros c1 c2 H1 H2.
    apply (in_map length) in H1, H2. rewrite Hlens in H1, H2.
    apply section_sizes_even in H1, H2. lia.
  - done.
  - by rewrite Hcat.
Qed.

Lemma array_split_partitions_witness :
  exists chunks,
    array_split [msg1; msg1; msg1] 2 = Ok chunks /\
    length chunks = Z.to_nat 2 /\
    sum_list (map length chunks) = length [msg1; msg1; msg1] /\
    (forall c1 c2, In c1 chunks -> In c2 chunks -> length c1 <= length c2 + 1) /\
    concat chunks = [msg1; msg1; msg1] /\
    Permutation (concat chunks) [msg1; msg1; msg1].
Proof. apply (array_split_partitions [msg1; msg1; msg1] 2). lia. Defined.

(** C9. For every worker count [S <= 0] the partitioning step raises
    [ValueError], Python's invalid-argument exception, and so does [main];
    no partition is returned. *)
Theorem array_split_rejects_nonpositive (ary : list Message) (S : Z)
    (d fr u : float) (answers : nat -> list Attempt) :
  (S <= 0)%Z ->
  array_split ary S = Raise ValueError /\
  main ary S d fr u answers = Raise ValueError.
Proof.
  intros HS. unfold main, array_split.
  destruct (Z.leb_spec S 0) as [_|]; [done|lia].
Qed.

Lemma array_split_rejects_nonpositive_witness :
  array_split [msg1] 0 = Raise ValueError /\
  main [msg1] 0 1 0 1 (fun _ => []) = Raise ValueError.
Proof. apply (array_split_rejects_nonpositive [msg1] 0 1 0 1 (fun _ => [])). lia. Defined.

(** ** Constructing a sender *)

(** C2 (the code does not do this). With a mean delay of zero, of either
    sign, [Sender.__init__] raises [ZeroDivisionError] at line 38,
    [std_deviation / mean_delay]; no sender with a degenerate zero delay
    is built. *)
Theorem Sender_init_zero_mean_delay (fr : float) (ms : list Message) :
  Sender_init 0 fr ms = Raise ZeroDivisionError /\
  Sender_init (-0) fr ms = Raise ZeroDivisionError.
Proof. split; reflexivity. Qed.

(** With the command line's default [--delay 0.0], [main] fails before
    any thread is started. *)
Lemma main_zero_delay (produced : list Message) (S : Z) (fr u : float)
    (answers : nat -> list Attempt) :
  (1 <= S)%Z ->
  main produced S 0 fr u answers = Raise ZeroDivisionError.
Proof.
  intros HS. unfold main. rewrite array_split_sections by done.
  set (sizes := repeat _ _ ++ _).
  assert (Hlen : length (split_sizes produced sizes) <> 0).
  { rewrite length_split_sizes. unfold sizes. rewrite length_app, !repeat_length.
    pose proof (Nat.mod_upper_bound (length produced) (Z.to_nat S)). lia. }
  destruct (split_sizes produced sizes) as [|c chunks]; [done|]. reflexivity.
Qed.

(** ** A sender without messages *)

(** C10. When there are more senders than messages the partition has an
    empty chunk. A sender built with no messages runs [send_all] in three
    steps: it sets [is_sending], finds the loop condition false, and
    clears [is_sending]; it has then returned with all four counters zero
    and [is_sending] false. *)
Theorem send_all_no_messages :
  (forall (ary : list Message) (S : Z),
      (Z.of_nat (length ary) < S)%Z ->
      exists chunks, array_split ary S = Ok chunks /\ In [] chunks) /\
  (forall (d fr : float) (answers : list Attempt) (s : Sender),
      Sender_init d fr [] = Ok s ->
      let r1 := send_all_run 1 s (send_all_frame answers) in
      let r3 := send_all_run 3 s (send_all_frame answers) in
      is_sending r1.1 = true /\
      pc r1.2 = L55_while /\
      pc r3.2 = SendAll_returned /\
      send_all_step r3.1 r3.2 = None /\
      num_messages_sent r3.1 = 0%Z /\
      num_messages_failed r3.1 = 0%Z /\
      elapsed_time r3.1 = 0%float /\
      elapsed_time_denominator r3.1 = 0%Z /\
      is_sending r3.1 = false /\
      messages r3.1 = []).
Proof.
  split.
  - intros ary S HS. assert (H1 : (1 <= S)%Z) by lia.
    eexists. split; [by apply array_split_sections|].
    set (n := Z.to_nat S). set (sizes := repeat _ _ ++ _).
    assert (Hn : n <> 0) by lia.
    pose proof (section_sizes_sum (length ary) n Hn) as Hsum. fold sizes in Hsum.
    assert (Hlens : map length (split_sizes ary sizes) = sizes)
      by (apply lengths_split_sizes; lia).
    assert (Hin : In 0 sizes).
    { unfold sizes. rewrite Nat.div_small, Nat.mod_small by lia.
      apply in_or_app. right.
      destruct (n - length ary) as [|k] eqn:Hk; [lia|]. by left. }
    rewrite <- Hlens in Hin. apply in_map_iff in Hin as (c & Hc & Hin).
    apply nil_length_inv in Hc. by subst.
  - intros d fr answers s Hs.
    apply Sender_init_Ok in Hs as (sh & sc & ->).
    repeat split.
Qed.

Lemma send_all_no_messages_witness :
  (exists chunks, array_split [msg1] 2 = Ok chunks /\ In [] chunks) /\
  (exists s, Sender_init 1 0 [] = Ok s /\
     pc (send_all_run 3 s (send_all_frame [])).2 = SendAll_returned /\
     is_sending (send_all_run 3 s (send_all_frame [])).1 = false).
Proof.
  split.
  - apply (proj1 send_all_no_messages [msg1] 2%Z). simpl. lia.
  - eexists. split; [reflexivity|].
    pose proof (proj2 send_all_no_messages 1%float 0%float []
                  _ eq_refl) as H.
    cbv zeta in H. split; [apply H|apply H].
Defined.

(** ** The drain loop: which messages leave [messages] *)

(** C1 as stated fails: the sender with one message and failure rate 0.5
    whose first draw is 0.25 has, after its first pass through the loop
    body, counted a failure and still holds the message; three steps
    later it is inside [send] with the same message again; and when it
    has returned, one message has cost two attempts. *)
Lemma failed_send_is_retried :
  let run n := send_all_run n sender1 (send_all_frame [fail_a; succeed_a]) in
  (pc (run 14).2 = L55_while /\
   num_messages_failed (run 14).1 = 1%Z /\
   messages (run 14).1 = [msg1]) /\
  (pc (run 17).2 = L67_gamma /\ send_message (run 17).2 = Some msg1) /\
  (pc (run 34).2 = SendAll_returned /\
   messages (run 34).1 = [] /\
   num_messages_sent (run 34).1 = 1%Z /\
   num_messages_failed (run 34).1 = 1%Z) /\
  ~ (messages (run 14).1 = removelast (messages sender1)).
Proof. vm_compute. repeat split; discriminate. Qed.

(** C1, amended. One pass through the loop body, started at the loop
    head with last message [m] and run without interruption: if the draw
    is below the failure rate, the pass takes 13 steps, counts one
    failure and leaves [messages] as it was, so that the next pass sends
    [m] again; otherwise it takes 18 steps, counts one sent message and
    removes [m], and only [m]. Either way exactly one attempt's answers
    are used up. *)
Theorem send_all_removes_only_sent (s : Sender) (f : SendAllFrame)
    (a : Attempt) (rest : list Attempt) (ms : list Message) (m : Message) :
  pc f = L55_while ->
  messages s = ms ++ [m] ->
  env f = a :: rest ->
  messages_failed_lock s = false ->
  messages_sent_lock s = false ->
  elapsed_time_lock s = false ->
  if (draw a <? failure_rate s)%float
  then
    let r := send_all_run 13 s f in
    pc r.2 = L55_while /\ env r.2 = rest /\
    send_message r.2 = Some m /\ sent r.2 = false /\
    messages r.1 = ms ++ [m] /\
    num_messages_failed r.1 = (num_messages_failed s + 1)%Z /\
    num_messages_sent r.1 = num_messages_sent s
  else
    let r := send_all_run 18 s f in
    pc r.2 = L55_while /\ env r.2 = rest /\
    send_message r.2 = Some m /\ sent r.2 = true /\
    messages r.1 = ms /\
    num_messages_sent r.1 = (num_messages_sent s + 1)%Z /\
    num_messages_failed r.1 = num_messages_failed s.
Proof.
  intros Hpc Hms Henv Hl1 Hl2 Hl3.
  destruct (draw a <? failure_rate s)%float eqn:Hdraw; cbv zeta.
  - rewrite (iteration_failed s f a rest ms m) by done.
    destruct s; cbn in *. by subst.
  - rewrite (iteration_sent s f a rest ms m) by done.
    destruct s; cbn in *. by subst.
Qed.

Lemma send_all_removes_only_sent_witness :
  let r := send_all_run 13 sender1 (goto L55_while (send_all_frame [fail_a])) in
  pc r.2 = L55_while /\ env r.2 = [] /\
  send_message r.2 = Some msg1 /\ sent r.2 = false /\
  messages r.1 = [] ++ [msg1] /\
  num_messages_failed r.1 = (num_messages_failed sender1 + 1)%Z /\
  num_messages_sent r.1 = num_messages_sent sender1.
Proof.
  exact (send_all_removes_only_sent sender1
           (goto L55_while (send_all_frame [fail_a])) fail_a [] [] msg1
           eq_refl eq_refl eq_refl eq_refl eq_refl eq_refl).
Defined.

(** ** A sender whose every send fails *)

(** Closing a case of a step analysis: the step taken is read off the
    hypothesis and what is to be shown follows by computation. *)
Ltac stepped H :=
  cbn in H; injection H as <- <-; repeat split; cbn; try done.

Lemma before_any_success_step (ms0 : list Message) (s s' : Sender)
    (f f' : SendAllFrame) :
  ms0 <> [] ->
  send_all_step s f = Some (s', f') ->
  failure_rate s = 1%float /\ messages s = ms0 /\ num_messages_sent s = 0%Z /\
    Forall draw_in_range (env f) /\ before_any_success f ->
  failure_rate s' = 1%float /\ messages s' = ms0 /\ num_messages_sent s' = 0%Z /\
    Forall draw_in_range (env f') /\ before_any_success f'.
Proof.
  intros Hne Hstep (Hfr & Hms & Hsent & Henv & Hpc).
  destruct s, f as [l st se el sm de en].
  cbn in Hfr, Hms, Hsent, Henv. subst.
  unfold before_any_success in Hpc. cbn [pc sent] in Hpc.
  destruct l; try done; unfold send_all_step in Hstep; cbn in Hstep.
  - stepped Hstep.
  - destruct ms0; [done|]. cbn in Hstep. stepped Hstep.
  - destruct en; [done|]. stepped Hstep.
  - destruct (last ms0) eqn:Hlast.
    + stepped Hstep.
    + apply last_None in Hlast. done.
  - destruct en; [done|]. stepped Hstep.
  - stepped Hstep.
  - destruct en as [|a en]; [done|].
    pose proof (Forall_inv Henv) as [_ Ha]. rewrite Ha in Hstep.
    stepped Hstep.
  - destruct messages_failed_lock0; [done|]. cbn in Hstep.
    stepped Hstep.
  - stepped Hstep.
  - stepped Hstep.
  - stepped Hstep.
  - stepped Hstep.
  - destruct en as [|a en]; [done|].
    apply Forall_cons in Henv as [_ Hen]. stepped Hstep.
  - subst. stepped Hstep.
Qed.

Lemma before_any_success_run (n : nat) (s : Sender) (f : SendAllFrame) :
  messages s <> [] ->
  failure_rate s = 1%float -> num_messages_sent s = 0%Z ->
  Forall draw_in_range (env f) -> before_any_success f ->
  let r := send_all_run n s f in
  messages r.1 = messages s /\ num_messages_sent r.1 = 0%Z /\
  before_any_success r.2.
Proof.
  intros Hne Hfr Hsent Henv Hpc. cbv zeta.
  remember (messages s) as ms0 eqn:Hms. symmetry in Hms.
  revert s f Hms Hfr Hsent Henv Hpc.
  induction n as [|n IH]; intros s f Hms Hfr Hsent Henv Hpc; [done|].
  cbn [send_all_run].
  destruct (send_all_step s f) as [[s' f']|] eqn:Hstep; [|done].
  destruct (before_any_success_step ms0 s s' f f' Hne Hstep)
    as (? & ? & ? & ? & ?); [done|].
  by apply IH.
Qed.

Lemma all_failing_run (answers : list Attempt) (s : Sender) (f : SendAllFrame)
    (ms : list Message) (m : Message) :
  pc f = L55_while ->
  env f = answers ->
  messages s = ms ++ [m] ->
  messages_failed_lock s = false ->
  Forall (fun a => (draw a <? failure_rate s)%float = true) answers ->
  let r := send_all_run (13 * length answers) s f in
  pc r.2 = L55_while /\ env r.2 = [] /\
  r.1 = set_num_messages_failed
          (num_messages_failed s + Z.of_nat (length answers)) s.
Proof.
  revert s f. induction answers as [|a answers IH];
    intros s f Hpc Henv Hms Hlock Hall; cbv zeta.
  - cbn. repeat split; try done. destruct s; cbn. by rewrite Z.add_0_r.
  - apply Forall_cons in Hall as [Ha Hall].
    replace (13 * length (a :: answers)) with (13 + 13 * length answers)
      by (cbn [length]; lia).
    rewrite send_all_run_add, (iteration_failed s f a answers ms m) by done.
    cbn [fst snd].
    destruct (IH (set_num_messages_failed (num_messages_failed s + 1) s)
                (mkSendAllFrame L55_while (t_start a) false
                   (t_end a - t_start a)%float (Some m) (gamma_sample a) answers))
      as (H1 & H2 & H3); try done.
    rewrite H3. repeat split; try done.
    destruct s; unfold set_num_messages_failed; cbn -[Z.add Z.of_nat length].
    f_equal. cbn [length]. lia.
Qed.

(** C4 as stated fails: for a sender with one message and failure rate 1
    there is no run, whatever [random.random()] answers within its
    range, after which [send_all] has returned; three attempts later the
    sender has counted three failures for its one message and is back at
    the loop head with the message still there. *)
Lemma failure_rate_one_counterexample :
  (~ exists (answers : list Attempt) (n : nat),
       Forall draw_in_range answers /\
       let r := send_all_run n sender_always_failing (send_all_frame answers) in
       pc r.2 = SendAll_returned /\
       num_messages_sent r.1 = 0%Z /\
       num_messages_failed r.1 = 1%Z) /\
  (let r := send_all_run 40 sender_always_failing
              (send_all_frame [fail_a; succeed_a; fail_a]) in
   pc r.2 = L55_while /\ messages r.1 = [msg1] /\
   num_messages_failed r.1 = 3%Z).
Proof.
  split; [|by vm_compute].
  intros (answers & n & Hall & Hpc & _). cbv zeta in Hpc.
  destruct (before_any_success_run n sender_always_failing
              (send_all_frame answers)) as (_ & _ & Hsafe); try done.
  unfold before_any_success in Hsafe. by rewrite Hpc in Hsafe.
Qed.

(** C4, amended. With failure rate 1 and at least one message [send_all]
    never returns: at every step of every run in which the draws are in
    range, no message has been counted as sent and [messages] is what it
    was; each attempt counts one more failure, so that after the
    [length answers] attempts the outside world answers, [failed] is that
    number and the coroutine is at the loop head again. *)
Theorem failure_rate_one_never_returns (s : Sender) (answers : list Attempt) :
  failure_rate s = 1%float ->
  messages s <> [] ->
  num_messages_sent s = 0%Z ->
  num_messages_failed s = 0%Z ->
  messages_failed_lock s = false ->
  Forall draw_in_range answers ->
  (forall n,
      let r := send_all_run n s (send_all_frame answers) in
      pc r.2 <> SendAll_returned /\
      num_messages_sent r.1 = 0%Z /\
      messages r.1 = messages s) /\
  (let r := send_all_run (1 + 13 * length answers) s (send_all_frame answers) in
   pc r.2 = L55_while /\ env r.2 = [] /\
   num_messages_failed r.1 = Z.of_nat (length answers) /\
   num_messages_sent r.1 = 0%Z /\
   messages r.1 = messages s).
Proof.
  intros Hfr Hne Hsent Hfailed Hlock Hall. split.
  - intros n. cbv zeta.
    destruct (before_any_success_run n s (send_all_frame answers))
      as (Hms & Hs & Hsafe); try done.
    repeat split; try done.
    intros Hpc. unfold before_any_success in Hsafe. by rewrite Hpc in Hsafe.
  - cbv zeta. rewrite send_all_run_add.
    destruct (exists_last Hne) as (ms & m & Hms).
    change (send_all_run 1 s (send_all_frame answers))
      with (set_is_sending true s, goto L55_while (send_all_frame answers)).
    cbn [fst snd].
    destruct (all_failing_run answers (set_is_sending true s)
                (goto L55_while (send_all_frame answers)) ms m eq_refl eq_refl)
      as (H1 & H2 & H3).
    + by destruct s.
    + by destruct s.
    + eapply Forall_impl; [apply Hall|]. intros a [_ Ha].
      destruct s; cbn in *. by subst.
    + rewrite H3. destruct s; cbn in *. repeat split; try done. lia.
Qed.

Lemma failure_rate_one_never_returns_witness :
  (forall n,
      let r := send_all_run n sender_always_failing (send_all_frame [fail_a; succeed_a]) in
      pc r.2 <> SendAll_returned /\
      num_messages_sent r.1 = 0%Z /\
      messages r.1 = messages sender_always_failing) /\
  (let r := send_all_run (1 + 13 * length [fail_a; succeed_a]) sender_always_failing
              (send_all_frame [fail_a; succeed_a]) in
   pc r.2 = L55_while /\ env r.2 = [] /\
   num_messages_failed r.1 = Z.of_nat (length [fail_a; succeed_a]) /\
   num_messages_sent r.1 = 0%Z /\
   messages r.1 = messages sender_always_failing).
Proof.
  apply (failure_rate_one_never_returns sender_always_failing [fail_a; succeed_a]);
    try reflexivity; try discriminate.
  repeat constructor.
Defined.

(** ** Harvesting while the sender runs *)

Lemma sender_system_run_app (l1 l2 : list SenderThread) (y : SenderSystem) :
  sender_system_run (l1 ++ l2) y = sender_system_run l2 (sender_system_run l1 y).
Proof. apply foldl_app. Qed.

(** C3 (the code does not do this). [get_and_reset_stats] holds the
    elapsed-time lock only. In the run [sched_lost_update] the client is
    inside its [with] block, between reading and resetting the counters,
    while the coroutine is inside [with self.__messages_sent_lock] and
    counts its message; the reset wipes that increment out. When both
    threads have finished, the message has been sent and removed, its
    elapsed time has been harvested, and the sent counts handed to the
    client add up to 0. *)
Theorem get_and_reset_stats_loses_increment :
  get_and_reset_stats_lock = elapsed_time_lock_attr /\
  (let y := sender_system_run (repeat send_all_thread 8 ++ repeat harvest_thread 2)
              (sender_system sender_reliable [succeed_a]) in
   pc (send_all_of y) = L75_sent_incr /\
   messages_sent_lock (the_sender y) = true /\
   gpc (harvest_of y) = L81_reset /\
   elapsed_time_lock (the_sender y) = true) /\
  (let y := sender_system_run sched_lost_update
              (sender_system sender_reliable [succeed_a]) in
   pc (send_all_of y) = SendAll_returned /\
   messages (the_sender y) = [] /\
   num_messages_sent (the_sender y) = 0%Z /\
   harvested y = [(0%Z, 0%float, 0%Z, 0%Z); (0%Z, 2.5%float, 1%Z, 0%Z)] /\
   harvested_sent y = 0%Z /\
   harvested_elapsed_time_denominator y = 1%Z).
Proof. vm_compute. repeat split. Qed.

(** The coroutine's own steps keep [sent + |messages|] in step with
    [in_flight], as long as nothing has reset the counter between the
    read and the write of line 75. *)
Lemma send_all_step_count (s s' : Sender) (f f' : SendAllFrame) :
  send_all_step s f = Some (s', f') ->
  (in_loop_body f -> messages s <> []) ->
  sent_read_current s f ->
  (num_messages_sent s' + Z.of_nat (length (messages s')) - in_flight f'
   = num_messages_sent s + Z.of_nat (length (messages s)) - in_flight f)%Z /\
  (in_loop_body f' -> messages s' <> []) /\
  sent_read_current s' f'.
Proof.
  intros Hstep Hbody Hread.
  destruct s, f as [l st se el sm de en].
  unfold in_loop_body in Hbody. cbn [pc messages] in Hbody.
  unfold sent_read_current in *. cbn [pc num_messages_sent] in Hread.
  destruct l; unfold send_all_step in Hstep; cbn in Hstep;
    try discriminate;
    try (destruct en as [|a en]; [discriminate|]).
  all: try (stepped Hstep; try lia; by apply Hbody).
  - destruct messages0; stepped Hstep.
  - destruct (last messages0); stepped Hstep; by apply Hbody.
  - destruct (draw a <? failure_rate0)%float; stepped Hstep; by apply Hbody.
  - destruct messages_failed_lock0; [done|]. stepped Hstep; by apply Hbody.
  - destruct messages_sent_lock0; [done|]. stepped Hstep; by apply Hbody.
  - destruct se; stepped Hstep; by apply Hbody.
  - destruct elapsed_time_lock0; [done|]. stepped Hstep; by apply Hbody.
  - stepped Hstep.
    destruct (exists_last (Hbody I)) as (ms & m & ->).
    rewrite removelast_last, length_app. cbn [length]. lia.
Qed.

Lemma foldr_sum_snoc (g : Stats -> Z) (h : list Stats) (t : Stats) :
  foldr (fun t acc => (g t + acc)%Z) 0%Z (h ++ [t])
  = (foldr (fun t acc => (g t + acc)%Z) 0%Z h + g t)%Z.
Proof. induction h as [|t' h IH]; cbn [foldr app]; lia. Qed.

(** An uninterrupted harvest hands the counters over and resets them, or
    does nothing when the coroutine holds the elapsed-time lock. *)
Lemma whole_harvest_run (y : SenderSystem) :
  gpc (harvest_of y) = L79_with_enter ->
  let y' := sender_system_run (turn_threads whole_harvest) y in
  gpc (harvest_of y') = L79_with_enter /\
  send_all_of y' = send_all_of y /\
  messages (the_sender y') = messages (the_sender y) /\
  (harvested_sent y' + num_messages_sent (the_sender y')
   = harvested_sent y + num_messages_sent (the_sender y))%Z.
Proof.
  intros Hg. destruct y as [s f [g t] h]. cbn in Hg. subst g.
  destruct s. destruct elapsed_time_lock0.
  - cbn. done.
  - cbn -[harvested_sent]. repeat split; try done.
    unfold harvested_sent. cbn [harvested]. rewrite foldr_sum_snoc.
    cbn. lia.
Qed.

Lemma uninterrupted_invariant (K : Z) (turns : list Turn) (y : SenderSystem) :
  gpc (harvest_of y) = L79_with_enter ->
  (in_loop_body (send_all_of y) -> messages (the_sender y) <> []) ->
  sent_read_current (the_sender y) (send_all_of y) ->
  (harvested_sent y + num_messages_sent (the_sender y)
   + Z.of_nat (length (messages (the_sender y))) - in_flight (send_all_of y)
   = K)%Z ->
  harvests_outside_sent_block turns y = true ->
  let y' := sender_system_run (uninterrupted turns) y in
  gpc (harvest_of y') = L79_with_enter /\
  (in_loop_body (send_all_of y') -> messages (the_sender y') <> []) /\
  sent_read_current (the_sender y') (send_all_of y') /\
  (harvested_sent y' + num_messages_sent (the_sender y')
   + Z.of_nat (length (messages (the_sender y'))) - in_flight (send_all_of y')
   = K)%Z.
Proof.
  revert y. induction turns as [|t turns IH];
    intros y Hg Hbody Hread Hcount Hout; [done|].
  cbv zeta. cbn [uninterrupted flat_map]. rewrite sender_system_run_app.
  cbn [harvests_outside_sent_block] in Hout.
  apply andb_prop in Hout as [Ht Hout].
  apply IH; [| | | |done]; destruct t.
  - cbn. destruct (send_all_step _ _) as [[s' f']|]; done.
  - by apply whole_harvest_run.
  - cbn. destruct (send_all_step _ _) as [[s' f']|] eqn:Hstep; [|done].
    by apply (send_all_step_count _ _ _ _ Hstep).
  - destruct (whole_harvest_run y Hg) as (_ & -> & -> & _). done.
  - cbn. destruct (send_all_step _ _) as [[s' f']|] eqn:Hstep; [|done].
    by apply (send_all_step_count _ _ _ _ Hstep).
  - destruct (whole_harvest_run y Hg) as (_ & -> & _).
    unfold sent_read_current, holds_sent_lock in *.
    by destruct (pc (send_all_of y)).
  - cbn. destruct (send_all_step _ _) as [[s' f']|] eqn:Hstep; [|done].
    destruct (send_all_step_count _ _ _ _ Hstep Hbody Hread) as [Heq _].
    unfold harvested_sent in *. cbn [harvested the_sender send_all_of]. lia.
  - destruct (whole_harvest_run y Hg) as (_ & -> & -> & Heq). lia.
Qed.

(** C5 as stated fails: after its first, failed attempt the sender with
    one message has [sent = 0], [failed = 1] and one message pending,
    nothing has been harvested, and the sum is 2, not the 1 message it
    was given. *)
Lemma sent_failed_pending_counterexample :
  Sender_init 1 0.5 [msg1] = Ok sender1 /\
  let y := sender_system_run (uninterrupted (repeat one_step 14))
             (sender_system sender1 [fail_a]) in
  pc (send_all_of y) = L55_while /\
  harvested y = [] /\
  (num_messages_sent (the_sender y) + num_messages_failed (the_sender y)
   + Z.of_nat (length (messages (the_sender y)))
   + harvested_sent y + harvested_failed y)%Z = 2%Z /\
  Z.of_nat (length (messages sender1)) = 1%Z.
Proof. vm_compute. repeat split. Qed.

(** C5, amended. For a sender as its constructor builds it, at every
    point of every run in which harvests are not interrupted and begin
    only while the coroutine is outside [with self.__messages_sent_lock]
    (lines 74-75): the sent counts already harvested, plus [sent], plus
    the number of pending messages equal the number of messages it was
    given, plus one while the coroutine is between counting a message as
    sent and removing it. [failed] is not part of the balance: it counts
    attempts, and a failed attempt leaves its message pending. The
    condition on where harvests begin is needed: line 79 does not take
    the sent lock, so a harvest can fall between the read and the write
    of line 75, and the balance is then off by what was read (X14
    below). *)
Theorem sent_and_pending_balance (d fr : float) (ms : list Message)
    (s : Sender) (answers : list Attempt) (turns : list Turn) :
  Sender_init d fr ms = Ok s ->
  harvests_outside_sent_block turns (sender_system s answers) = true ->
  let y := sender_system_run (uninterrupted turns) (sender_system s answers) in
  (harvested_sent y + num_messages_sent (the_sender y)
   + Z.of_nat (length (messages (the_sender y)))
   = Z.of_nat (length ms) + in_flight (send_all_of y))%Z.
Proof.
  intros Hs Hout. apply Sender_init_Ok in Hs as (sh & sc & ->). cbv zeta.
  edestruct (uninterrupted_invariant (Z.of_nat (length ms)) turns)
    as (_ & _ & _ & H);
    [| | | |exact Hout|apply Z.sub_move_r in H; rewrite H; lia]; cbn; try done.
  unfold harvested_sent. cbn. lia.
Qed.

Lemma sent_and_pending_balance_witness :
  let y := sender_system_run
             (uninterrupted (repeat one_step 11 ++ [whole_harvest; one_step]))
             (sender_system sender1 [succeed_a]) in
  (harvested_sent y + num_messages_sent (the_sender y)
   + Z.of_nat (length (messages (the_sender y)))
   = Z.of_nat (length [msg1]) + in_flight (send_all_of y))%Z.
Proof.
  exact (sent_and_pending_balance 1 0.5 [msg1] sender1 [succeed_a]
           (repeat one_step 11 ++ [whole_harvest; one_step]) eq_refl eq_refl).
Defined.

(** ** The monitor's loop *)









Lemma main_monitor (produced : list Message) (S : Z) (d fr u : float)
    (answers : nat -> list Attempt) (w : World) :
  main produced S d fr u answers = Ok w -> monitor w = Monitor_init u.
Proof.
  unfold main.
  destruct (array_split produced S) as [chunks|]; cbn [bind]; [|done].
  destruct (mapM _ chunks) as [ss|]; cbn [bind]; [|done].
  by intros [= <-].
Qed.




(** ** The average delay *)

Lemma get_and_reset_stats_free (s : Sender) :
  elapsed_time_lock s = false ->
  get_and_reset_stats s
  = Some (set_num_messages_sent 0
            (set_elapsed_time_denominator 0
               (set_elapsed_time 0%float (set_num_messages_failed 0 s))),
          (num_messages_failed s, elapsed_time s,
           elapsed_time_denominator s, num_messages_sent s)).
Proof. intros H. destruct s. cbn in H. subst. reflexivity. Qed.



(** * Further properties of the code *)

(** ** [main]: from the workload to the threads *)

Lemma mapM_Ok {A B : Type} (f : A -> Result B) (l : list A) (l' : list B) :
  mapM f l = Ok l' -> Forall2 (fun x y => f x = Ok y) l l'.
Proof.
  revert l'. induction l as [|x l IH]; intros l' H; cbn in H.
  - injection H as <-. constructor.
  - destruct (f x) as [y|] eqn:Hx; cbn in H; [|done].
    destruct (mapM f l) as [ys|]; cbn in H; [|done].
    injection H as <-. constructor; [done|]. by apply IH.
Qed.

Lemma Sender_init_each (d fr : float) (chunks : list (list Message))
    (ss : list Sender) :
  Forall2 (fun ms s => Sender_init d fr ms = Ok s) chunks ss ->
  map messages ss = chunks /\ Forall (fresh fr) ss.
Proof.
  induction 1 as [|ms s chunks ss Hs _ [IH1 IH2]]; [done|].
  apply Sender_init_Ok in Hs as (sh & sc & ->). cbn. split.
  - by rewrite IH1.
  - constructor; [|done]. by repeat split.
Qed.

(** X1. When [main] gets as far as starting its threads, there is one
    sender and one coroutine per requested sender; the senders' message
    lists are the chunks [array_split] made, in order, so that together
    they are the produced workload, nothing twice and nothing missing;
    every sender has the given failure rate, zero counters, no lock held
    and is not sending; and the monitor has nothing counted yet. *)
Theorem main_one_sender_per_chunk (produced : list Message) (S : Z)
    (d fr u : float) (answers : nat -> list Attempt) (w : World) :
  main produced S d fr u answers = Ok w ->
  (1 <= S)%Z /\
  array_split produced S = Ok (map messages (senders w)) /\
  length (senders w) = Z.to_nat S /\
  length (send_alls w) = Z.to_nat S /\
  concat (map messages (senders w)) = produced /\
  Forall (fresh fr) (senders w) /\
  (forall i, i < Z.to_nat S ->
             send_alls w !! i = Some (send_all_frame (answers i))) /\
  monitor w = Monitor_init u.
Proof.
  intros Hmain. pose proof Hmain as Hmon. apply main_monitor in Hmon.
  unfold main in Hmain.
  assert (HS : (1 <= S)%Z).
  { unfold array_split in Hmain. destruct (Z.leb_spec S 0); [done|lia]. }
  rewrite array_split_sections in Hmain |- * by done.
  set (sizes := repeat _ _ ++ _) in *. cbn [bind] in Hmain.
  destruct (mapM _ _) as [ss|] eqn:Hss; cbn [bind] in Hmain; [|done].
  injection Hmain as <-. cbn [senders send_alls monitor] in *.
  apply mapM_Ok, Sender_init_each in Hss as [Hms Hfresh].
  assert (Hlen : length ss = Z.to_nat S).
  { rewrite <- (length_map messages), Hms, length_split_sizes. unfold sizes.
    rewrite length_app, !repeat_length.
    pose proof (Nat.mod_upper_bound (length produced) (Z.to_nat S)). lia. }
  split_and!; try done.
  - by rewrite Hms.
  - by rewrite length_map, length_seq.
  - rewrite Hms. apply concat_split_sizes, section_sizes_sum. lia.
  - intros i Hi. rewrite Hlen.
    change (map ?f ?l) with (f <$> l).
    by rewrite list_lookup_fmap, lookup_seq_lt.
Qed.

Lemma main_one_sender_per_chunk_witness :
  exists w,
    main [msg1; msg1; msg1] 2 1 0.5 1 (fun _ => [succeed_a]) = Ok w /\
    length (senders w) = Z.to_nat 2 /\
    concat (map messages (senders w)) = [msg1; msg1; msg1] /\
    Forall (fresh 0.5) (senders w).
Proof.
  eexists. split; [vm_compute; reflexivity|].
  pose proof (main_one_sender_per_chunk [msg1; msg1; msg1] 2 1 0.5 1
                (fun _ => [succeed_a]) _ eq_refl) as H.
  split_and!; apply H.
Defined.

(** X2. With a mean delay of zero, the command line's default, [main]
    raises [ZeroDivisionError] for every workload and every number of
    senders it could partition for: the first [Sender] it constructs
    fails, and no thread is started. *)
Theorem main_default_delay_raises (produced : list Message) (S : Z)
    (fr u : float) (answers : nat -> list Attempt) :
  (1 <= S)%Z ->
  main produced S 0 fr u answers = Raise ZeroDivisionError.
Proof. apply main_zero_delay. Qed.

Lemma main_default_delay_raises_witness :
  main [msg1] 1 0 0 1 (fun _ => []) = Raise ZeroDivisionError.
Proof. apply (main_default_delay_raises [msg1] 1 0 1 (fun _ => [])). lia. Defined.

(** ** [get_and_reset_stats] on its own *)

Lemma get_and_reset_stats_held (s : Sender) :
  elapsed_time_lock s = true -> get_and_reset_stats s = None.
Proof. intros H. destruct s. cbn in H. subst. reflexivity. Qed.

Lemma get_and_reset_stats_Some (s s' : Sender) (t : Stats) :
  get_and_reset_stats s = Some (s', t) ->
  elapsed_time_lock s = false /\
  s' = reset_stats s /\
  t = (num_messages_failed s, elapsed_time s,
       elapsed_time_denominator s, num_messages_sent s).
Proof.
  intros H. destruct (elapsed_time_lock s) eqn:Hlock.
  - by rewrite get_and_reset_stats_held in H.
  - rewrite get_and_reset_stats_free in H by done. by injection H as <- <-.
Qed.

(** X3. A harvest returns the four counters as they are and leaves them
    zero; a second harvest with no send in between returns four zeros and
    changes nothing. *)
Theorem get_and_reset_stats_twice (s s1 : Sender) (t1 : Stats) :
  get_and_reset_stats s = Some (s1, t1) ->
  t1 = (num_messages_failed s, elapsed_time s,
        elapsed_time_denominator s, num_messages_sent s) /\
  num_messages_failed s1 = 0%Z /\ elapsed_time s1 = 0%float /\
  elapsed_time_denominator s1 = 0%Z /\ num_messages_sent s1 = 0%Z /\
  get_and_reset_stats s1 = Some (s1, (0%Z, 0%float, 0%Z, 0%Z)).
Proof.
  intros H. apply get_and_reset_stats_Some in H as (Hlock & -> & ->).
  split_and!; try done.
  rewrite get_and_reset_stats_free by (by destruct s). by destruct s.
Qed.

Lemma get_and_reset_stats_twice_witness :
  get_and_reset_stats (reset_stats sender1)
  = Some (reset_stats sender1, (0%Z, 0%float, 0%Z, 0%Z)).
Proof.
  apply (get_and_reset_stats_twice sender1 (reset_stats sender1)
           (0%Z, 0%float, 0%Z, 0%Z) eq_refl).
Defined.

(** X4. A harvest is refused exactly when the elapsed-time lock is held,
    whatever the state of the two other locks; and a harvest that
    happens leaves the pending messages, [is_sending], the delay and
    failure parameters and all three locks as they were. *)
Theorem get_and_reset_stats_touches_counters_only (s : Sender) :
  (get_and_reset_stats s = None <-> elapsed_time_lock s = true) /\
  (forall s' t,
      get_and_reset_stats s = Some (s', t) ->
      messages s' = messages s /\ is_sending s' = is_sending s /\
      shape s' = shape s /\ scale s' = scale s /\
      failure_rate s' = failure_rate s /\
      messages_sent_lock s' = messages_sent_lock s /\
      messages_failed_lock s' = messages_failed_lock s /\
      elapsed_time_lock s' = elapsed_time_lock s).
Proof.
  split.
  - split; [|apply get_and_reset_stats_held].
    destruct (elapsed_time_lock s) eqn:Hlock; [done|].
    by rewrite get_and_reset_stats_free.
  - intros s' t H. apply get_and_reset_stats_Some in H as (Hlock & -> & _).
    by destruct s.
Qed.

Lemma get_and_reset_stats_touches_counters_only_witness :
  messages (reset_stats sender1) = messages sender1 /\
  is_sending (reset_stats sender1) = is_sending sender1 /\
  shape (reset_stats sender1) = shape sender1 /\
  scale (reset_stats sender1) = scale sender1 /\
  failure_rate (reset_stats sender1) = failure_rate sender1 /\
  messages_sent_lock (reset_stats sender1) = messages_sent_lock sender1 /\
  messages_failed_lock (reset_stats sender1) = messages_failed_lock sender1 /\
  elapsed_time_lock (reset_stats sender1) = elapsed_time_lock sender1.
Proof.
  exact (proj2 (get_and_reset_stats_touches_counters_only sender1)
           (reset_stats sender1) (0%Z, 0%float, 0%Z, 0%Z) eq_refl).
Defined.

(** ** [send_all] from start to return *)

Lemma drains_nil (fr : float) (K : nat) : drains fr [] K = true -> K = 0.
Proof. by destruct K. Qed.

Lemma drain_loop (answers : list Attempt) :
  forall (K : nat) (ms : list Message) (sh sc fr : float) (ns nf : Z)
         (el : float) (den : Z) (sending : bool) (f : SendAllFrame),
    pc f = L55_while -> env f = answers -> length ms = K ->
    drains fr answers K = true ->
    let r := send_all_run (drain_steps fr answers)
               (mkSender sh sc fr ms false ns false nf false el den sending) f in
    pc r.2 = L55_while /\ env r.2 = [] /\
    r.1 = mkSender sh sc fr [] false (ns + Z.of_nat K) false
            (nf + Z.of_nat (failures fr answers)) false
            (elapsed_total fr answers el) (den + Z.of_nat K) sending.
Proof.
  induction answers as [|a answers IH];
    intros K ms sh sc fr ns nf el den sending f Hpc Henv Hlen Hdr; cbv zeta.
  - apply drains_nil in Hdr as ->. apply nil_length_inv in Hlen as ->.
    cbn. by rewrite !Z.add_0_r.
  - destruct K as [|K]; [done|].
    destruct ms as [|m0 ms0] using rev_ind; [done|]. clear IHms0.
    rewrite length_app in Hlen. cbn [length] in Hlen.
    cbn [drains drain_steps failures elapsed_total] in *.
    rewrite send_all_run_add.
    destruct (fails fr a) eqn:Hfail.
    + rewrite (iteration_failed _ f a answers ms0 m0) by done. cbn [fst snd].
      unfold set_num_messages_failed.
      cbn [shape scale failure_rate messages messages_sent_lock
           num_messages_sent messages_failed_lock num_messages_failed
           elapsed_time_lock elapsed_time elapsed_time_denominator is_sending].
      edestruct (IH (S K) (ms0 ++ [m0])) as (H1 & H2 & H3);
        [| | | |rewrite H3; split_and!; [apply H1|apply H2|]]; try done.
      * rewrite length_app. cbn [length]. lia.
      * f_equal; lia.
    + rewrite (iteration_sent _ f a answers ms0 m0) by done. cbn [fst snd].
      unfold set_messages, set_elapsed_time_denominator, set_elapsed_time,
        set_num_messages_sent.
      cbn [shape scale failure_rate messages messages_sent_lock
           num_messages_sent messages_failed_lock num_messages_failed
           elapsed_time_lock elapsed_time elapsed_time_denominator is_sending].
      edestruct (IH K ms0) as (H1 & H2 & H3);
        [| | | |rewrite H3; split_and!; [apply H1|apply H2|]]; try done.
      * lia.
      * f_equal; lia.
Qed.

Lemma send_all_whole_run (sh sc fr : float) (ms : list Message)
    (answers : list Attempt) :
  drains fr answers (length ms) = true ->
  send_all_run (1 + (drain_steps fr answers + 2))
    (mkSender sh sc fr ms false 0 false 0 false 0 0 false)
    (send_all_frame answers)
  = (mkSender sh sc fr [] false (Z.of_nat (length ms)) false
       (Z.of_nat (failures fr answers)) false
       (elapsed_total fr answers 0) (Z.of_nat (length ms)) false,
     (send_all_run (1 + (drain_steps fr answers + 2))
        (mkSender sh sc fr ms false 0 false 0 false 0 0 false)
        (send_all_frame answers)).2) /\
  pc (send_all_run (1 + (drain_steps fr answers + 2))
        (mkSender sh sc fr ms false 0 false 0 false 0 0 false)
        (send_all_frame answers)).2 = SendAll_returned /\
  env (send_all_run (1 + (drain_steps fr answers + 2))
         (mkSender sh sc fr ms false 0 false 0 false 0 0 false)
         (send_all_frame answers)).2 = [].
Proof.
  intros Hdr.
  rewrite send_all_run_add.
  change (send_all_run 1 _ (send_all_frame answers))
    with (mkSender sh sc fr ms false 0 false 0 false 0 0 true,
          goto L55_while (send_all_frame answers)).
  cbn [fst snd]. rewrite send_all_run_add.
  destruct (drain_loop answers (length ms) ms sh sc fr 0 0 0 0 true
              (goto L55_while (send_all_frame answers)))
    as (H1 & H2 & H3); try done.
  cbv zeta in H1, H2, H3.
  destruct (send_all_run (drain_steps fr answers) _ _) as [s1 f1].
  cbn [fst snd] in *. subst s1. destruct f1. cbn in H1, H2. subst.
  cbn. by rewrite !Z.add_0_l.
Qed.

(** X5. [send_all] on a sender as constructed, run without interruption
    over the attempts that drain its messages: it returns, after 13
    steps for every failed attempt, 18 for every successful one and 3
    more; no message is pending and [is_sending] is false; [sent] and
    the elapsed-time denominator are the number of messages it was
    given, [failed] is the number of failed attempts, i.e. of retries;
    [elapsed_time] is the sum, in order, of the elapsed times of the
    successful attempts alone; and no lock is left held. *)
Theorem send_all_returns_when_drained (d fr : float) (ms : list Message)
    (s : Sender) (answers : list Attempt) :
  Sender_init d fr ms = Ok s ->
  drains fr answers (length ms) = true ->
  let r := send_all_run (1 + (drain_steps fr answers + 2)) s
             (send_all_frame answers) in
  pc r.2 = SendAll_returned /\ env r.2 = [] /\
  messages r.1 = [] /\ is_sending r.1 = false /\
  num_messages_sent r.1 = Z.of_nat (length ms) /\
  num_messages_failed r.1 = Z.of_nat (failures fr answers) /\
  elapsed_time_denominator r.1 = Z.of_nat (length ms) /\
  elapsed_time r.1 = elapsed_total fr answers 0 /\
  messages_sent_lock r.1 = false /\ messages_failed_lock r.1 = false /\
  elapsed_time_lock r.1 = false.
Proof.
  intros Hs Hdr. apply Sender_init_Ok in Hs as (sh & sc & ->). cbv zeta.
  destruct (send_all_whole_run sh sc fr ms answers Hdr) as (H1 & H2 & H3).
  rewrite H1. by split_and!.
Qed.

Lemma send_all_returns_when_drained_witness :
  let r := send_all_run (1 + (drain_steps 0.5 [fail_a; succeed_a] + 2)) sender1
             (send_all_frame [fail_a; succeed_a]) in
  pc r.2 = SendAll_returned /\ env r.2 = [] /\
  messages r.1 = [] /\ is_sending r.1 = false /\
  num_messages_sent r.1 = Z.of_nat (length [msg1]) /\
  num_messages_failed r.1 = Z.of_nat (failures 0.5 [fail_a; succeed_a]) /\
  elapsed_time_denominator r.1 = Z.of_nat (length [msg1]) /\
  elapsed_time r.1 = elapsed_total 0.5 [fail_a; succeed_a] 0 /\
  messages_sent_lock r.1 = false /\ messages_failed_lock r.1 = false /\
  elapsed_time_lock r.1 = false.
Proof.
  exact (send_all_returns_when_drained 1 0.5 [msg1] sender1
           [fail_a; succeed_a] eq_refl eq_refl).
Defined.

(** A draw in the range of [random.random()] is not below zero. *)
Lemma draw_not_below_zero (a : Attempt) : draw_in_range a -> fails 0 a = false.
Proof.
  intros [Hge _]. unfold fails.
  rewrite FloatAxioms.leb_spec in Hge. rewrite FloatAxioms.ltb_spec.
  change (Prim2SF 0) with (S754_zero false) in *.
  destruct (Prim2SF (draw a)) as [[|]|[|]| |[|] m e]; done.
Qed.

Lemma drains_all_succeed (fr : float) (answers : list Attempt) :
  Forall (fun a => fails fr a = false) answers ->
  drains fr answers (length answers) = true /\
  drain_steps fr answers = 18 * length answers /\
  failures fr answers = 0.
Proof.
  induction 1 as [|a answers Ha _ (IH1 & IH2 & IH3)]; [done|].
  cbn [drains drain_steps failures length]. rewrite Ha. split_and!; [done|lia|lia].
Qed.

(** X6. With failure rate 0 no send fails, whatever [random.random()]
    draws within its range: a sender given [K] messages returns from
    [send_all] after [K] attempts with [sent = K], [failed = 0] and no
    message pending. *)
Theorem send_all_failure_rate_zero (d : float) (ms : list Message)
    (s : Sender) (answers : list Attempt) :
  Sender_init d 0 ms = Ok s ->
  length answers = length ms ->
  Forall draw_in_range answers ->
  let r := send_all_run (18 * length ms + 3) s (send_all_frame answers) in
  pc r.2 = SendAll_returned /\
  messages r.1 = [] /\ is_sending r.1 = false /\
  num_messages_sent r.1 = Z.of_nat (length ms) /\
  num_messages_failed r.1 = 0%Z /\
  elapsed_time_denominator r.1 = Z.of_nat (length ms).
Proof.
  intros Hs Hlen Hall. apply Sender_init_Ok in Hs as (sh & sc & ->). cbv zeta.
  destruct (drains_all_succeed 0 answers) as (Hdr & Hsteps & Hfail).
  { eapply Forall_impl; [apply Hall|]. apply draw_not_below_zero. }
  rewrite Hlen in Hdr, Hsteps.
  destruct (send_all_whole_run sh sc 0 ms answers Hdr) as (H1 & H2 & H3).
  rewrite Hsteps, Hfail in *.
  replace (18 * length ms + 3) with (1 + (18 * length ms + 2)) by lia.
  rewrite H1. by split_and!.
Qed.

Lemma send_all_failure_rate_zero_witness :
  let r := send_all_run (18 * length [msg1] + 3) sender_reliable
             (send_all_frame [succeed_a]) in
  pc r.2 = SendAll_returned /\
  messages r.1 = [] /\ is_sending r.1 = false /\
  num_messages_sent r.1 = Z.of_nat (length [msg1]) /\
  num_messages_failed r.1 = 0%Z /\
  elapsed_time_denominator r.1 = Z.of_nat (length [msg1]).
Proof.
  apply (send_all_failure_rate_zero 1 [msg1] sender_reliable [succeed_a]);
    [reflexivity|reflexivity|].
  repeat constructor.
Defined.

(** ** A sender and its harvester under any interleaving *)

Lemma sender_inv_step (s s' : Sender) (f f' : SendAllFrame) :
  send_all_step s f = Some (s', f') ->
  sender_inv s f -> sender_inv s' f'.
Proof.
  intros Hstep (Hsend & Hsl & Hfl & Hbody & Hleft & Hraise).
  destruct s, f as [l st se el sm de en].
  unfold drain_loop_running, holds_sent_lock, holds_failed_lock, in_loop_body,
    loop_left in *.
  cbn [pc is_sending messages_sent_lock messages_failed_lock messages] in *.
  destruct l; unfold send_all_step in Hstep; cbn in Hstep;
    try discriminate; try (destruct en as [|a en]; [discriminate|]); subst.
  all: try (stepped Hstep; by apply Hbody).
  - destruct messages0; stepped Hstep.
  - destruct (last messages0) eqn:Hlast; [stepped Hstep; by apply Hbody|].
    apply last_None in Hlast. by destruct (Hbody I).
  - destruct (draw a <? failure_rate0)%float; stepped Hstep; by apply Hbody.
  - destruct se; stepped Hstep; by apply Hbody.
  - destruct elapsed_time_lock0; [done|]. stepped Hstep; by apply Hbody.
Qed.

Lemma get_and_reset_stats_step_frame (s s' : Sender) (g g' : GetAndResetFrame) :
  get_and_reset_stats_step s g = Some (s', g') ->
  messages s' = messages s /\ is_sending s' = is_sending s /\
  shape s' = shape s /\ scale s' = scale s /\
  failure_rate s' = failure_rate s /\
  messages_sent_lock s' = messages_sent_lock s /\
  messages_failed_lock s' = messages_failed_lock s.
Proof.
  intros Hstep. destruct s, g as [l t].
  destruct l; unfold get_and_reset_stats_step in Hstep; cbn in Hstep;
    try discriminate.
  - destruct elapsed_time_lock0; [done|]. by stepped Hstep.
  - by stepped Hstep.
  - by stepped Hstep.
  - by stepped Hstep.
Qed.

Lemma sender_inv_harvest (s s' : Sender) (f : SendAllFrame)
    (g g' : GetAndResetFrame) :
  get_and_reset_stats_step s g = Some (s', g') ->
  sender_inv s f -> sender_inv s' f.
Proof.
  intros Hstep (Hsend & Hsl & Hfl & Hbody & Hleft & Hraise).
  apply get_and_reset_stats_step_frame in Hstep
    as (Hms & His & _ & _ & _ & Hl1 & Hl2).
  unfold sender_inv. by rewrite Hms, His, Hl1, Hl2.
Qed.

Lemma sender_system_run_sender_inv (sched : list SenderThread)
    (y : SenderSystem) :
  sender_inv (the_sender y) (send_all_of y) ->
  sender_inv (the_sender (sender_system_run sched y))
             (send_all_of (sender_system_run sched y)).
Proof.
  revert y. induction sched as [|t sched IH]; intros y Hinv; [done|].
  cbn. apply IH. destruct t; cbn.
  - destruct (send_all_step _ _) as [[s' f']|] eqn:Hstep; [|done].
    by apply (sender_inv_step _ _ _ _ Hstep).
  - destruct (get_and_reset_stats_step _ _) as [[s' g']|] eqn:Hstep; [|done].
    apply (sender_inv_harvest _ _ (send_all_of y) _ _ Hstep) in Hinv.
    by destruct (gpc g').
Qed.

(** X7. For a sender as constructed, at every point of every
    interleaving of its coroutine with a harvesting thread: [is_sending]
    is true exactly from after line 54 until line 64 has run; line 57's
    [self.__messages[-1]] never raises [IndexError]; once [send_all] has
    returned no message is pending; and the sent lock and the failed lock
    are held exactly while the coroutine is inside the [with] block that
    takes them. *)
Theorem is_sending_while_draining (d fr : float) (ms : list Message)
    (s : Sender) (answers : list Attempt) (sched : list SenderThread) :
  Sender_init d fr ms = Ok s ->
  let y := sender_system_run sched (sender_system s answers) in
  is_sending (the_sender y) = drain_loop_running (send_all_of y) /\
  (forall e, pc (send_all_of y) <> SendAll_raised e) /\
  (pc (send_all_of y) = SendAll_returned ->
   messages (the_sender y) = [] /\ is_sending (the_sender y) = false) /\
  messages_sent_lock (the_sender y) = holds_sent_lock (send_all_of y) /\
  messages_failed_lock (the_sender y) = holds_failed_lock (send_all_of y).
Proof.
  intros Hs. apply Sender_init_Ok in Hs as (sh & sc & ->). cbv zeta.
  destruct (sender_system_run_sender_inv sched
              (sender_system (mkSender sh sc fr ms false 0 false 0 false 0 0 false)
                 answers))
    as (Hsend & Hsl & Hfl & Hbody & Hleft & Hraise).
  { by split_and!. }
  split_and!; try done.
  intros Hpc. split.
  - apply Hleft. unfold loop_left. by rewrite Hpc.
  - rewrite Hsend. unfold drain_loop_running. by rewrite Hpc.
Qed.

Lemma is_sending_while_draining_witness :
  let y := sender_system_run sched_lost_update
             (sender_system sender_reliable [succeed_a]) in
  is_sending (the_sender y) = drain_loop_running (send_all_of y) /\
  (forall e, pc (send_all_of y) <> SendAll_raised e) /\
  (pc (send_all_of y) = SendAll_returned ->
   messages (the_sender y) = [] /\ is_sending (the_sender y) = false) /\
  messages_sent_lock (the_sender y) = holds_sent_lock (send_all_of y) /\
  messages_failed_lock (the_sender y) = holds_failed_lock (send_all_of y).
Proof.
  exact (is_sending_while_draining 1 0 [msg1] sender_reliable [succeed_a]
           sched_lost_update eq_refl).
Defined.

Ltac elapsed_unfold :=
  unfold elapsed_inv, holds_elapsed_lock, inside_harvest, counted_not_removed,
    harvest_in_hand, in_loop_body, harvested_elapsed_time_denominator in *;
  cbn [the_sender send_all_of harvest_of harvested pc gpc stats messages
       elapsed_time_lock elapsed_time_denominator] in *.

Lemma elapsed_inv_send_all (K : Z) (s s' : Sender) (f f' : SendAllFrame)
    (g : GetAndResetFrame) (h : list Stats) :
  send_all_step s f = Some (s', f') ->
  elapsed_inv K (mkSenderSystem s f g h) ->
  elapsed_inv K (mkSenderSystem s' f' g h).
Proof.
  intros Hstep (Hlock & Hex & Hret & H81 & Hbal & Hbody).
  destruct s, f as [l st se el sm de en], g as [gp gt].
  elapsed_unfold.
  destruct l; unfold send_all_step in Hstep; cbn in Hstep;
    try discriminate; try (destruct en as [|a en]; [discriminate|]).
  all: try (stepped Hstep; try lia; by apply Hbody).
  all: try (destruct messages0; stepped Hstep; try lia; by apply Hbody).
  all: try (destruct (last messages0); stepped Hstep; try lia; by apply Hbody).
  all: try (destruct (draw a <? failure_rate0)%float; stepped Hstep; try lia;
            by apply Hbody).
  all: try (destruct messages_failed_lock0; [done|]; stepped Hstep; try lia;
            by apply Hbody).
  all: try (destruct messages_sent_lock0; [done|]; stepped Hstep; try lia;
            by apply Hbody).
  all: try (destruct se; stepped Hstep; try lia; by apply Hbody).
  - destruct gp; cbn in Hlock, Hex; subst; cbn in Hstep; try discriminate;
      stepped Hstep; try lia; by apply Hbody.
  - destruct gp; cbn in Hlock, Hex; subst; try discriminate;
      stepped Hstep; try lia; by apply Hbody.
  - stepped Hstep.
    destruct (exists_last (Hbody I)) as (ms & m & ->).
    rewrite removelast_last. rewrite length_app in Hbal. cbn [length] in Hbal.
    lia.
Qed.

Lemma elapsed_inv_harvest (K : Z) (y : SenderSystem) :
  elapsed_inv K y -> elapsed_inv K (sender_system_step harvest_thread y).
Proof.
  intros Hinv. pose proof Hinv as (Hlock & Hex & Hret & H81 & Hbal & Hbody).
  destruct y as [s f [gp gt] h]. destruct s.
  unfold elapsed_inv, inside_harvest, harvest_in_hand,
    harvested_elapsed_time_denominator in *.
  cbn [the_sender send_all_of harvest_of harvested gpc stats messages
       elapsed_time_lock elapsed_time_denominator] in *.
  destruct (holds_elapsed_lock f) eqn:Hf;
    destruct gp; cbn in Hlock, Hex; try discriminate; subst;
    try (by destruct Hret); cbn; try done.
  all: split_and!; rewrite ?Hf, ?foldr_sum_snoc;
    try specialize (H81 eq_refl); try done; try lia.
Qed.

Lemma sender_system_run_elapsed_inv (K : Z) (sched : list SenderThread)
    (y : SenderSystem) :
  elapsed_inv K y -> elapsed_inv K (sender_system_run sched y).
Proof.
  revert y. induction sched as [|t sched IH]; intros y Hinv; [done|].
  cbn. apply IH. destruct t.
  - destruct y as [s f g h]. cbn.
    destruct (send_all_step s f) as [[s' f']|] eqn:Hstep; [|done].
    by apply (elapsed_inv_send_all K s s' f f' g h Hstep).
  - by apply elapsed_inv_harvest.
Qed.

(** X8. For a sender as constructed, at every point of every
    interleaving of its coroutine with a harvesting thread: the
    coroutine is never inside [with self.__elapsed_time_lock] while a
    harvest is inside its [with] block, and that lock is held exactly
    when one of the two is; and no count of the elapsed-time
    denominator is lost or doubled: what has been harvested, what a
    harvest in progress has already taken out, the sender's own
    denominator and the number of pending messages add up to the number
    of messages given, plus one between lines 62 and 63. Once [send_all]
    has returned, the denominators harvested and still to harvest are
    the number of messages. *)
Theorem elapsed_time_denominator_is_never_lost (d fr : float)
    (ms : list Message) (s : Sender) (answers : list Attempt)
    (sched : list SenderThread) :
  Sender_init d fr ms = Ok s ->
  let y := sender_system_run sched (sender_system s answers) in
  holds_elapsed_lock (send_all_of y) && inside_harvest (harvest_of y) = false /\
  elapsed_time_lock (the_sender y)
  = holds_elapsed_lock (send_all_of y) || inside_harvest (harvest_of y) /\
  (harvested_elapsed_time_denominator y + harvest_in_hand (harvest_of y)
   + elapsed_time_denominator (the_sender y)
   + Z.of_nat (length (messages (the_sender y)))
   = Z.of_nat (length ms) + counted_not_removed (send_all_of y))%Z /\
  (pc (send_all_of y) = SendAll_returned ->
   (harvested_elapsed_time_denominator y + harvest_in_hand (harvest_of y)
    + elapsed_time_denominator (the_sender y)
    = Z.of_nat (length ms))%Z).
Proof.
  intros Hs. apply Sender_init_Ok in Hs as (sh & sc & ->). cbv zeta.
  set (y0 := sender_system _ answers).
  destruct (sender_system_run_elapsed_inv (Z.of_nat (length ms)) sched y0)
    as (Hlock & Hex & _ & _ & Hbal & _).
  { unfold elapsed_inv, harvested_elapsed_time_denominator. cbn.
    split_and!; try done. lia. }
  destruct (sender_system_run_sender_inv sched y0)
    as (_ & _ & _ & _ & Hleft & _).
  { by split_and!. }
  split_and!; try done.
  intros Hpc. unfold counted_not_removed, loop_left in *.
  rewrite Hpc in *. rewrite Hleft in Hbal by done. cbn [length] in Hbal. lia.
Qed.

Lemma elapsed_time_denominator_is_never_lost_witness :
  let y := sender_system_run sched_lost_update
             (sender_system sender_reliable [succeed_a]) in
  holds_elapsed_lock (send_all_of y) && inside_harvest (harvest_of y) = false /\
  elapsed_time_lock (the_sender y)
  = holds_elapsed_lock (send_all_of y) || inside_harvest (harvest_of y) /\
  (harvested_elapsed_time_denominator y + harvest_in_hand (harvest_of y)
   + elapsed_time_denominator (the_sender y)
   + Z.of_nat (length (messages (the_sender y)))
   = Z.of_nat (length [msg1]) + counted_not_removed (send_all_of y))%Z /\
  (pc (send_all_of y) = SendAll_returned ->
   (harvested_elapsed_time_denominator y + harvest_in_hand (harvest_of y)
    + elapsed_time_denominator (the_sender y)
    = Z.of_nat (length [msg1]))%Z).
Proof.
  exact (elapsed_time_denominator_is_never_lost 1 0 [msg1] sender_reliable
           [succeed_a] sched_lost_update eq_refl).
Defined.

(** ** Who changes what in the program *)

Lemma map_insert_same {A B : Type} (g : A -> B) (l : list A) (i : nat) (x y : A) :
  l !! i = Some x -> g y = g x -> map g (<[i := y]> l) = map g l.
Proof.
  intros Hx Hg. change (g <$> <[i := y]> l = g <$> l).
  rewrite list_fmap_insert, Hg. apply list_insert_id.
  by rewrite list_lookup_fmap, Hx.
Qed.

Lemma monitor_step_senders (ss ss' : list Sender) (m m' : Monitor) :
  monitor_step ss m = Some (ss', m') ->
  length ss' = length ss /\
  map messages ss' = map messages ss /\
  map is_sending ss' = map is_sending ss /\
  map failure_rate ss' = map failure_rate ss /\
  map messages_sent_lock ss' = map messages_sent_lock ss /\
  map messages_failed_lock ss' = map messages_failed_lock ss.
Proof.
  intros Hstep. destruct m as [u ns nf te td l lp acs win ent].
  unfold monitor_step in Hstep. cbn [mpc] in Hstep.
  destruct l; try discriminate.
  - by injection Hstep as <- <-.
  - destruct (ss !! i) as [s|]; [destruct (is_sending s)|destruct (negb _)];
      by injection Hstep as <- <-.
  - by injection Hstep as <- <-.
  - destruct (ss !! i); by injection Hstep as <- <-.
  - cbn in Hstep. destruct (ss !! i) as [s|] eqn:Hs; [|done]. cbn in Hstep.
    destruct (get_and_reset_stats_step s g) as [[s' g']|] eqn:Hg; [|done].
    cbn in Hstep.
    apply get_and_reset_stats_step_frame in Hg
      as (H1 & H2 & _ & _ & H3 & H4 & H5).
    assert (ss' = <[i := s']> ss) as ->
        by (destruct (gpc g'); by injection Hstep as <- <-).
    rewrite length_insert.
    split_and!; [done|by apply (map_insert_same _ _ _ s)..].
  - by injection Hstep as <- <-.
  - destruct (average_delay _); by injection Hstep as <- <-.
  - by injection Hstep as <- <-.
  - by injection Hstep as <- <-.
Qed.

(** X9. The monitor's thread changes no coroutine and no sender's
    pending messages, [is_sending], failure rate, sent lock or failed
    lock, and keeps the number of senders; the thread of sender [i]
    changes neither the monitor nor any other sender or coroutine, and
    keeps the numbers of senders and coroutines. *)
Theorem threads_keep_to_their_own (w : World) :
  (let w' := world_step monitor_thread w in
   send_alls w' = send_alls w /\
   length (senders w') = length (senders w) /\
   map messages (senders w') = map messages (senders w) /\
   map is_sending (senders w') = map is_sending (senders w) /\
   map failure_rate (senders w') = map failure_rate (senders w) /\
   map messages_sent_lock (senders w') = map messages_sent_lock (senders w) /\
   map messages_failed_lock (senders w')
   = map messages_failed_lock (senders w)) /\
  (forall i,
      let w' := world_step (sender_thread i) w in
      monitor w' = monitor w /\
      length (senders w') = length (senders w) /\
      length (send_alls w') = length (send_alls w) /\
      forall j, j <> i ->
                senders w' !! j = senders w !! j /\
                send_alls w' !! j = send_alls w !! j).
Proof.
  split.
  - cbv zeta. unfold world_step.
    destruct (monitor_step _ _) as [[ss m']|] eqn:Hstep; [|done].
    apply monitor_step_senders in Hstep as (? & ? & ? & ? & ? & ?).
    cbn. by split_and!.
  - intros i. cbv zeta. unfold world_step.
    destruct (senders w !! i) as [s|]; [|done].
    destruct (send_alls w !! i) as [f|]; [|done].
    destruct (send_all_step s f) as [[s' f']|]; [|done].
    cbn. rewrite !length_insert. split_and!; try done.
    intros j Hj. by rewrite !list_lookup_insert_ne.
Qed.

Lemma threads_keep_to_their_own_witness :
  let w := mkWorld [sender_reliable; sender1]
             [send_all_frame [succeed_a]; send_all_frame [fail_a]]
             (Monitor_init 1) in
  senders (world_step (sender_thread 0) w) !! 1 = senders w !! 1 /\
  send_alls (world_step (sender_thread 0) w) !! 1 = send_alls w !! 1.
Proof.
  refine (proj2 (proj2 (proj2 (proj2 (threads_keep_to_their_own _) 0))) 1 _).
  discriminate.
Defined.

(** ** Counts never go down *)

Lemma send_all_step_nonneg (s s' : Sender) (f f' : SendAllFrame) :
  send_all_step s f = Some (s', f') ->
  counters_nonneg s -> read_nonneg f ->
  counters_nonneg s' /\ read_nonneg f'.
Proof.
  intros Hstep (H1 & H2 & H3) Hread. destruct s, f as [l st se el sm de en].
  unfold counters_nonneg, read_nonneg in *. cbn in H1, H2, H3, Hread.
  destruct l; unfold send_all_step in Hstep; cbn in Hstep;
    try discriminate; try (destruct en as [|a en]; [discriminate|]).
  all: try (stepped Hstep; lia).
  - destruct messages0; stepped Hstep.
  - destruct (last messages0); stepped Hstep.
  - destruct (draw a <? failure_rate0)%float; stepped Hstep.
  - destruct messages_failed_lock0; [done|]. stepped Hstep.
  - destruct messages_sent_lock0; [done|]. stepped Hstep.
  - destruct se; stepped Hstep.
  - destruct elapsed_time_lock0; [done|]. stepped Hstep.
Qed.

Lemma get_and_reset_stats_step_nonneg (s s' : Sender)
    (g g' : GetAndResetFrame) :
  get_and_reset_stats_step s g = Some (s', g') ->
  counters_nonneg s -> stats_nonneg (stats g) ->
  counters_nonneg s' /\ stats_nonneg (stats g').
Proof.
  intros Hstep (H1 & H2 & H3) Hg. destruct s, g as [l t].
  unfold counters_nonneg, stats_nonneg in *. cbn in H1, H2, H3, Hg.
  destruct l; unfold get_and_reset_stats_step in Hstep; cbn in Hstep;
    try discriminate.
  - destruct elapsed_time_lock0; [done|]. stepped Hstep; apply Hg.
  - stepped Hstep.
  - stepped Hstep; apply Hg.
  - stepped Hstep; apply Hg.
Qed.

Lemma shown_within_le (m m' : Monitor) (sn : Snapshot) :
  totals_le m m' -> shown_within m sn -> shown_within m' sn.
Proof. unfold totals_le, shown_within. lia. Qed.

Lemma never_decreasing_snoc (m : Monitor) (win : list Snapshot) (avg : float) :
  never_decreasing win ->
  Forall (shown_within m) win ->
  never_decreasing
    (win ++ [mkSnapshot (monitor_num_messages_sent m)
               (monitor_num_messages_failed m) avg]).
Proof.
  intros Hwin Hall i j a b Hij Ha Hb.
  destruct (decide (j < length win)) as [Hj|Hj].
  - rewrite lookup_app_l in Ha, Hb by lia. by apply (Hwin i j).
  - rewrite lookup_app_r in Hb by lia.
    destruct (j - length win) as [|k] eqn:Hk; [|by destruct k].
    injection Hb as <-. cbn.
    destruct (decide (i < length win)) as [Hi|Hi].
    + rewrite lookup_app_l in Ha by lia.
      apply list_elem_of_lookup_2 in Ha.
      rewrite Forall_forall in Hall. apply Hall in Ha.
      unfold shown_within in Ha. lia.
    + rewrite lookup_app_r in Ha by lia.
      replace (i - length win) with 0 in Ha by lia.
      injection Ha as <-. cbn. lia.
Qed.

Ltac nonneg_stepped H :=
  cbn in H; injection H as <- <-; cbn; split_and!; try done; try lia.

Lemma monitor_step_nonneg (ss ss' : list Sender) (m m' : Monitor) :
  monitor_step ss m = Some (ss', m') ->
  Forall counters_nonneg ss -> monitor_nonneg m ->
  Forall counters_nonneg ss' /\ monitor_nonneg m' /\ totals_le m m'.
Proof.
  intros Hstep Hss (Htot & Hpc & Hwin & Hsorted).
  destruct m as [u ns nf te td l lp acs win ent].
  unfold monitor_step in Hstep.
  unfold monitor_nonneg, totals_le, shown_within in *.
  cbn [mpc window monitor_num_messages_sent monitor_num_messages_failed
       monitor_elapsed_time_denominator] in *.
  destruct l; try discriminate.
  - nonneg_stepped Hstep.
  - destruct (ss !! i) as [s|]; [destruct (is_sending s)|destruct (negb _)];
      nonneg_stepped Hstep.
  - nonneg_stepped Hstep.
  - destruct (ss !! i); nonneg_stepped Hstep.
  - cbn in Hstep. destruct (ss !! i) as [s|] eqn:Hs; [|done]. cbn in Hstep.
    destruct (get_and_reset_stats_step s g) as [[s' g']|] eqn:Hg; [|done].
    cbn in Hstep.
    destruct (get_and_reset_stats_step_nonneg _ _ _ _ Hg) as [Hs' Hg'];
      [by eapply Forall_lookup_1|done|].
    destruct (gpc g'); nonneg_stepped Hstep; by apply Forall_insert.
  - destruct Hpc as (? & ? & ?). nonneg_stepped Hstep.
    eapply Forall_impl; [apply Hwin|]. cbn. lia.
  - destruct (average_delay _); nonneg_stepped Hstep.
    + apply Forall_app. split; [done|]. constructor; [cbn; lia|constructor].
    + by apply (never_decreasing_snoc
                  (mkMonitor u ns nf te td L104_display lp acs win ent)).
  - nonneg_stepped Hstep.
  - nonneg_stepped Hstep.
Qed.

Lemma world_step_nonneg (t : ThreadId) (w : World) :
  world_nonneg w ->
  world_nonneg (world_step t w) /\
  totals_le (monitor w) (monitor (world_step t w)).
Proof.
  intros (Hss & Hfs & Hm). destruct t as [i|]; unfold world_step.
  - destruct (senders w !! i) as [s|] eqn:Hs;
      [|by unfold totals_le; split_and!].
    destruct (send_alls w !! i) as [f|] eqn:Hf;
      [|by unfold totals_le; split_and!].
    destruct (send_all_step s f) as [[s' f']|] eqn:Hstep;
      [|by unfold totals_le; split_and!].
    destruct (send_all_step_nonneg _ _ _ _ Hstep) as [Hs' Hf'];
      [by eapply Forall_lookup_1|by eapply Forall_lookup_1|].
    unfold world_nonneg, totals_le. cbn. split_and!; try done;
      by apply Forall_insert.
  - destruct (monitor_step _ _) as [[ss m']|] eqn:Hstep;
      [|by unfold totals_le; split_and!].
    by destruct (monitor_step_nonneg _ _ _ _ Hstep Hss Hm) as (? & ? & ?).
Qed.

Lemma world_run_app (l1 l2 : list ThreadId) (w : World) :
  world_run (l1 ++ l2) w = world_run l2 (world_run l1 w).
Proof. apply foldl_app. Qed.

Lemma world_run_nonneg (sched : list ThreadId) (w : World) :
  world_nonneg w ->
  world_nonneg (world_run sched w) /\
  totals_le (monitor w) (monitor (world_run sched w)).
Proof.
  revert w. induction sched as [|t sched IH]; intros w Hw.
  - by unfold totals_le; split_and!.
  - destruct (world_step_nonneg t w Hw) as [Hw1 Hle1].
    destruct (IH _ Hw1) as [Hw2 Hle2].
    change (world_run (t :: sched) w) with (world_run sched (world_step t w)).
    split; [done|]. unfold totals_le in *. lia.
Qed.

Lemma main_world_nonneg (produced : list Message) (S : Z) (d fr u : float)
    (answers : nat -> list Attempt) (w : World) :
  main produced S d fr u answers = Ok w -> world_nonneg w.
Proof.
  intros Hmain. pose proof (main_monitor _ _ _ _ _ _ _ Hmain) as Hmon.
  unfold main in Hmain.
  destruct (array_split produced S) as [chunks|]; cbn [bind] in Hmain; [|done].
  destruct (mapM _ chunks) as [ss|] eqn:Hss; cbn [bind] in Hmain; [|done].
  injection Hmain as <-. cbn [monitor] in Hmon.
  apply mapM_Ok, Sender_init_each in Hss as [_ Hfresh].
  split_and!; cbn [senders send_alls monitor].
  - eapply Forall_impl; [apply Hfresh|].
    intros s (_ & _ & H1 & _ & H2 & _ & _ & H3 & _).
    unfold counters_nonneg. rewrite H1, H2, H3. lia.
  - change (map ?f ?l) with (f <$> l). by apply Forall_fmap, Forall_true.
  - unfold monitor_nonneg, Monitor_init. cbn. by split_and!.
Qed.

(** X10. In every run of the program no counter of a sender and no
    total of the monitor is ever negative, the monitor's totals of sent
    and failed messages and of the elapsed-time denominator never go
    down as the run goes on, and the window never shows a count that
    is negative, above the monitor's total, or lower than one shown
    before. *)
Theorem counts_never_go_down (produced : list Message) (S : Z)
    (d fr u : float) (answers : nat -> list Attempt) (w : World)
    (sched1 sched2 : list ThreadId) :
  main produced S d fr u answers = Ok w ->
  let w1 := world_run sched1 w in
  let w2 := world_run (sched1 ++ sched2) w in
  Forall counters_nonneg (senders w1) /\
  (0 <= monitor_num_messages_sent (monitor w1) /\
   0 <= monitor_num_messages_failed (monitor w1) /\
   0 <= monitor_elapsed_time_denominator (monitor w1))%Z /\
  totals_le (monitor w1) (monitor w2) /\
  Forall (shown_within (monitor w1)) (window (monitor w1)) /\
  never_decreasing (window (monitor w1)).
Proof.
  intros Hmain. cbv zeta. apply main_world_nonneg in Hmain.
  destruct (world_run_nonneg sched1 w Hmain) as [Hw1 _].
  pose proof Hw1 as (Hss & _ & Htot & _ & Hwin & Hs).
  rewrite world_run_app.
  destruct (world_run_nonneg sched2 (world_run sched1 w) Hw1) as [_ Hle].
  split_and!; try done; apply Htot.
Qed.

Lemma counts_never_go_down_witness :
  let w := mkWorld [sender_reliable] [send_all_frame [succeed_a]]
             (Monitor_init 1) in
  totals_le (monitor (world_run (repeat (sender_thread 0) 3) w))
            (monitor (world_run (repeat (sender_thread 0) 3 ++ sched_demo) w)) /\
  never_decreasing
    (window (monitor (world_run (repeat (sender_thread 0) 3) w))).
Proof.
  pose proof (counts_never_go_down [msg1] 1 1 0 1 (fun _ => [succeed_a])
                (mkWorld [sender_reliable] [send_all_frame [succeed_a]]
                   (Monitor_init 1))
                (repeat (sender_thread 0) 3) sched_demo eq_refl) as H.
  cbv zeta in H. cbv zeta. destruct H as (_ & _ & H3 & _ & H5).
  split; [exact H3|exact H5].
Defined.

(** ** When [main] starts and when it raises *)

Lemma Sender_init_messages (d fr : float) (ms ms' : list Message) :
  match Sender_init d fr ms with
  | Ok _ => exists s', Sender_init d fr ms' = Ok s'
  | Raise e => Sender_init d fr ms' = Raise e
  end.
Proof.
  unfold Sender_init.
  destruct (float_pow2 d) as [sq|]; cbn [bind]; [|done].
  destruct (float_of_int 1) as [sd|]; cbn [bind]; [|done].
  destruct (float_truediv sq sd) as [sh|]; cbn [bind]; [|done].
  destruct (float_truediv sd d) as [sc|]; cbn [bind]; [|done].
  by eexists.
Qed.

Lemma mapM_Sender_init (d fr : float) (chunks : list (list Message)) :
  chunks <> [] ->
  match Sender_init d fr [] with
  | Ok _ => exists ss, mapM (Sender_init d fr) chunks = Ok ss
  | Raise e => mapM (Sender_init d fr) chunks = Raise e
  end.
Proof.
  intros Hne. induction chunks as [|c chunks IH]; [done|]. cbn [mapM].
  pose proof (Sender_init_messages d fr [] c) as Hc.
  destruct (Sender_init d fr []) as [s0|e].
  - destruct Hc as [s' ->]. cbn [bind].
    destruct chunks as [|c' chunks]; [by eexists|].
    destruct IH as [ss ->]; [done|]. by eexists.
  - by rewrite Hc.
Qed.

(** X11. [main] raises [ValueError] when the number of senders is zero
    or negative. For a positive number it raises exactly what
    [Sender.__init__] raises for the given delay, whatever the workload:
    [OverflowError] when the delay is finite and its square is not,
    otherwise [ZeroDivisionError] when the delay is zero; and for every
    other delay it builds its senders and gets as far as starting the
    threads. *)
Theorem main_starts_or_raises (produced : list Message) (S : Z)
    (d fr u : float) (answers : nat -> list Attempt) :
  if (S <=? 0)%Z then main produced S d fr u answers = Raise ValueError
  else if is_finite d && is_infinity (d * d)
  then main produced S d fr u answers = Raise OverflowError
  else if (d =? 0)%float
  then main produced S d fr u answers = Raise ZeroDivisionError
  else exists w, main produced S d fr u answers = Ok w.
Proof.
  destruct (Z.leb_spec S 0) as [HS|HS].
  { unfold main, array_split. by destruct (Z.leb_spec S 0); [|lia]. }
  unfold main. rewrite array_split_sections by lia. cbn [bind].
  set (sizes := repeat _ _ ++ _).
  assert (Hne : split_sizes produced sizes <> []).
  { intros Heq. apply (f_equal length) in Heq.
    rewrite length_split_sizes in Heq. unfold sizes in Heq.
    rewrite length_app, !repeat_length in Heq. cbn in Heq.
    pose proof (Nat.mod_upper_bound (length produced) (Z.to_nat S)). lia. }
  pose proof (mapM_Sender_init d fr _ Hne) as Hmap.
  unfold Sender_init at 1 in Hmap. unfold float_pow2 in Hmap.
  destruct (is_finite d && is_infinity (d * d)); cbn [bind] in Hmap.
  { by rewrite Hmap. }
  rewrite float_of_int_1 in Hmap. cbn [bind] in Hmap.
  change (float_truediv (d * d) 1) with (Ok (d * d / 1)%float) in Hmap.
  cbn [bind] in Hmap. unfold float_truediv in Hmap.
  destruct (d =? 0)%float; cbn [bind] in Hmap.
  { by rewrite Hmap. }
  destruct Hmap as [ss ->]. by eexists.
Qed.

(** ** The monitor returns after the senders *)

Lemma world_paired_step (t : ThreadId) (w : World) :
  world_paired w -> world_paired (world_step t w).
Proof.
  intros [Hlen Hinv]. destruct t as [i|]; unfold world_step.
  - destruct (senders w !! i) as [s|] eqn:Hs; [|done].
    destruct (send_alls w !! i) as [f|] eqn:Hf; [|done].
    destruct (send_all_step s f) as [[s' f']|] eqn:Hstep; [|done].
    split; cbn [senders send_alls]; [by rewrite !length_insert|].
    intros j s1 f1 Hs1 Hf1. destruct (decide (j = i)) as [->|Hne].
    + rewrite list_lookup_insert_eq in Hs1 by (by eapply lookup_lt_Some).
      rewrite list_lookup_insert_eq in Hf1 by (by eapply lookup_lt_Some).
      injection Hs1 as <-. injection Hf1 as <-.
      apply (sender_inv_step _ _ _ _ Hstep). by apply (Hinv i).
    + rewrite list_lookup_insert_ne in Hs1 by done.
      rewrite list_lookup_insert_ne in Hf1 by done. by apply (Hinv j).
  - destruct (monitor_step _ _) as [[ss m']|] eqn:Hstep; [|done].
    pose proof (monitor_step_senders _ _ _ _ Hstep) as (Hl & _).
    split; cbn [senders send_alls]; [by rewrite Hl|].
    intros j s1 f1 Hs1 Hf1.
    destruct (monitor w) as [u ns nf te td l lp acs win ent].
    unfold monitor_step in Hstep. cbn [mpc] in Hstep.
    destruct l; try discriminate;
      try (injection Hstep as <- <-; by apply (Hinv j)).
    + destruct (senders w !! i) as [s|]; [destruct (is_sending s)|destruct (negb _)];
        injection Hstep as <- <-; by apply (Hinv j).
    + destruct (senders w !! i); injection Hstep as <- <-; by apply (Hinv j).
    + cbn in Hstep. destruct (senders w !! i) as [s|] eqn:Hs; [|done].
      cbn in Hstep.
      destruct (get_and_reset_stats_step s g) as [[s' g']|] eqn:Hg; [|done].
      cbn in Hstep.
      assert (ss = <[i := s']> (senders w)) as ->
          by (destruct (gpc g'); by injection Hstep as <- <-).
      destruct (decide (j = i)) as [->|Hne].
      * rewrite list_lookup_insert_eq in Hs1 by (by eapply lookup_lt_Some).
        injection Hs1 as <-.
        apply (sender_inv_harvest _ _ _ _ _ Hg). by apply (Hinv i).
      * rewrite list_lookup_insert_ne in Hs1 by done. by apply (Hinv j).
    + destruct (average_delay _); injection Hstep as <- <-; by apply (Hinv j).
Qed.

Lemma world_paired_run (sched : list ThreadId) (w : World) :
  world_paired w -> world_paired (world_run sched w).
Proof.
  revert w. induction sched as [|t sched IH]; intros w Hw; [done|].
  apply (IH (world_step t w)). by apply world_paired_step.
Qed.

Lemma main_world_paired (produced : list Message) (S : Z) (d fr u : float)
    (answers : nat -> list Attempt) (w : World) :
  main produced S d fr u answers = Ok w -> world_paired w.
Proof.
  intros Hmain. unfold main in Hmain.
  destruct (array_split produced S) as [chunks|]; cbn [bind] in Hmain; [|done].
  destruct (mapM _ chunks) as [ss|] eqn:Hss; cbn [bind] in Hmain; [|done].
  injection Hmain as <-.
  apply mapM_Ok, Sender_init_each in Hss as [_ Hfresh].
  split; cbn [senders send_alls]; [by rewrite length_map, length_seq|].
  intros i s f Hs Hf.
  change (map ?g ?l) with (g <$> l) in Hf.
  rewrite list_lookup_fmap in Hf.
  destruct (seq 0 (length ss) !! i); [|done]. injection Hf as <-.
  rewrite Forall_forall in Hfresh.
  destruct (Hfresh s) as (_ & H1 & _ & H2 & _ & _ & _ & _ & H3);
    [by eapply list_elem_of_lookup_2|].
  unfold sender_inv. cbn. by rewrite H1, H2, H3.
Qed.

Lemma send_all_step_started (s s' : Sender) (f f' : SendAllFrame) :
  send_all_step s f = Some (s', f') -> pc f' <> L54_set_is_sending.
Proof.
  intros Hstep. destruct s, f as [l st se el sm de en].
  destruct l; unfold send_all_step in Hstep; cbn in Hstep;
    try discriminate; try (destruct en as [|a en]; [discriminate|]).
  all: try (by injection Hstep as <- <-).
  - destruct messages0; by injection Hstep as <- <-.
  - destruct (last messages0); by injection Hstep as <- <-.
  - destruct (draw a <? failure_rate0)%float; by injection Hstep as <- <-.
  - destruct messages_failed_lock0; [done|]. by injection Hstep as <- <-.
  - destruct messages_sent_lock0; [done|]. by injection Hstep as <- <-.
  - destruct se; by injection Hstep as <- <-.
  - destruct elapsed_time_lock0; [done|]. by injection Hstep as <- <-.
Qed.

Lemma send_all_step_returned (s : Sender) (f : SendAllFrame) :
  pc f = SendAll_returned -> send_all_step s f = None.
Proof. intros H. unfold send_all_step. by rewrite H. Qed.

Lemma idle_started_is_returned (s : Sender) (f : SendAllFrame) :
  sender_inv s f -> is_sending s = false -> pc f <> L54_set_is_sending ->
  pc f = SendAll_returned.
Proof.
  intros (Hsend & _ & _ & _ & _ & Hraise) Hidle Hstarted.
  rewrite Hidle in Hsend. unfold drain_loop_running in Hsend.
  destruct (pc f) eqn:Hpc; try done. by destruct (Hraise e).
Qed.

Lemma scan_inv_step (t : ThreadId) (w : World) :
  world_paired w -> scan_inv w -> scan_inv (world_step t w).
Proof.
  intros [Hlen Hpair] (Hstarted & Hscan & Hexit).
  destruct t as [i|]; unfold world_step.
  - destruct (senders w !! i) as [s|] eqn:Hs; [|done].
    destruct (send_alls w !! i) as [f|] eqn:Hf; [|done].
    destruct (send_all_step s f) as [[s' f']|] eqn:Hstep; [|done].
    assert (Hnot : pc f <> SendAll_returned).
    { intros Hpc. by rewrite send_all_step_returned in Hstep. }
    unfold scan_inv, all_started, all_returned. cbn [senders send_alls monitor].
    split_and!.
    + intros j f1 Hf1. destruct (decide (j = i)) as [->|Hne].
      * rewrite list_lookup_insert_eq in Hf1 by (by eapply lookup_lt_Some).
        injection Hf1 as <-. by apply (send_all_step_started _ _ _ _ Hstep).
      * rewrite list_lookup_insert_ne in Hf1 by done. by apply (Hstarted j).
    + intros k Hk j f1 Hj Hf1. destruct (decide (j = i)) as [->|Hne].
      * destruct Hnot. by apply (Hscan k Hk i).
      * rewrite list_lookup_insert_ne in Hf1 by done. by apply (Hscan k Hk j).
    + intros Hpc j f1 Hf1. destruct (decide (j = i)) as [->|Hne].
      * destruct Hnot. by apply (Hexit Hpc i).
      * rewrite list_lookup_insert_ne in Hf1 by done. by apply (Hexit Hpc j).
  - destruct (monitor_step _ _) as [[ss m']|] eqn:Hstep; [|done].
    unfold scan_inv, all_started, all_returned in *.
    cbn [senders send_alls monitor].
    destruct (monitor w) as [u ns nf te td l lp acs win ent].
    unfold monitor_step in Hstep. cbn [mpc last_pass] in *.
    split; [done|].
    destruct l; try discriminate.
    + injection Hstep as <- <-. cbn. split; [|by intros [|]].
      intros k [= <-] j f1 Hj. lia.
    + destruct (senders w !! i) as [s|] eqn:Hs.
      * destruct (is_sending s) eqn:Hidle; injection Hstep as <- <-; cbn;
          (split; [|by intros [|]]); [done|].
        intros k [= <-] j f1 Hj Hf1.
        destruct (decide (j = i)) as [->|Hne]; [|apply (Hscan i eq_refl j); [lia|done]].
        apply (idle_started_is_returned s); [by apply (Hpair i)|done|].
        by apply (Hstarted i).
      * destruct lp; injection Hstep as <- <-; cbn;
          (split; [done|]); [|by intros [|]].
        intros _ j f1 Hf1. apply (Hscan i eq_refl j); [|done].
        apply lookup_lt_Some in Hf1. apply lookup_ge_None in Hs. lia.
    + injection Hstep as <- <-. cbn. split; [done|by intros [|]].
    + destruct (senders w !! i); injection Hstep as <- <-; cbn;
        (split; [done|by intros [|]]).
    + cbn in Hstep. destruct (senders w !! i) as [s|]; [|done]. cbn in Hstep.
      destruct (get_and_reset_stats_step s g) as [[s' g']|]; [|done].
      cbn in Hstep.
      destruct (gpc g'); injection Hstep as <- <-; cbn;
        (split; [done|by intros [|]]).
    + injection Hstep as <- <-. cbn. split; [done|by intros [|]].
    + destruct (average_delay _); injection Hstep as <- <-; cbn;
        (split; [done|by intros [|]]).
    + injection Hstep as <- <-. cbn. split; [|by intros [|]].
      intros k [= <-] j f1 Hj. lia.
    + injection Hstep as <- <-. cbn. split; [done|].
      intros _. apply Hexit. by left.
Qed.

Lemma scan_inv_run (sched : list ThreadId) (w : World) :
  world_paired w -> scan_inv w ->
  world_paired (world_run sched w) /\ scan_inv (world_run sched w).
Proof.
  revert w. induction sched as [|t sched IH]; intros w Hp Hs; [done|].
  apply (IH (world_step t w)).
  - by apply world_paired_step.
  - by apply scan_inv_step.
Qed.

(** X12. If every sender's coroutine has executed line 54 before the
    monitor begins, then in every run from there a monitor that has
    returned finds every [send_all] returned: no message is pending
    anywhere and no sender is sending. (A sender is seen idle by line 96
    only before it starts or after it has returned, and it never
    restarts.) *)
Theorem monitor_returns_after_senders (produced : list Message) (S : Z)
    (d fr u : float) (answers : nat -> list Attempt) (w : World)
    (sched0 sched1 : list ThreadId) :
  main produced S d fr u answers = Ok w ->
  let w0 := world_run sched0 w in
  all_started w0 ->
  mpc (monitor w0) = L95_last_pass_init ->
  let w1 := world_run sched1 w0 in
  mpc (monitor w1) = Monitor_returned ->
  forall i s f,
    senders w1 !! i = Some s -> send_alls w1 !! i = Some f ->
    pc f = SendAll_returned /\ messages s = [] /\ is_sending s = false.
Proof.
  intros Hmain w0 Hstarted Hmon w1 Hret i s f Hs Hf.
  assert (Hp0 : world_paired w0)
    by (apply world_paired_run; by eapply main_world_paired).
  assert (Hs0 : scan_inv w0).
  { split_and!; [done|..].
    - intros k Hk. by rewrite Hmon in Hk.
    - intros [Hk|Hk]; by rewrite Hmon in Hk. }
  destruct (scan_inv_run sched1 w0 Hp0 Hs0) as [[_ Hpair] (_ & _ & Hexit)].
  fold w1 in Hpair, Hexit.
  assert (Hpc : pc f = SendAll_returned) by (apply (Hexit (or_intror Hret) i); done).
  destruct (Hpair i s f Hs Hf) as (Hsend & _ & _ & _ & Hleft & _).
  split_and!; [done|..].
  - apply Hleft. unfold loop_left. by rewrite Hpc.
  - rewrite Hsend. unfold drain_loop_running. by rewrite Hpc.
Qed.

Lemma monitor_returns_after_senders_witness :
  match senders (world_run sched_after_start (world_run sched_start world_demo))
          !! 0%nat,
        send_alls (world_run sched_after_start (world_run sched_start world_demo))
          !! 0%nat with
  | Some s, Some f =>
      pc f = SendAll_returned /\ messages s = [] /\ is_sending s = false
  | _, _ => False
  end.
Proof.
  assert (Hstarted : all_started (world_run sched_start world_demo)).
  { intros [|i] f; vm_compute; intros [= <-]; discriminate. }
  assert (Hbegin : mpc (monitor (world_run sched_start world_demo))
                   = L95_last_pass_init) by (vm_compute; reflexivity).
  assert (Hend : mpc (monitor (world_run sched_after_start
                                 (world_run sched_start world_demo)))
                 = Monitor_returned) by (vm_compute; reflexivity).
  pose proof (monitor_returns_after_senders [msg1] 1 1 0 1
                (fun _ => [succeed_a]) world_demo sched_start sched_after_start
                eq_refl Hstarted Hbegin Hend 0%nat) as H.
  destruct (senders _ !! 0%nat) as [s|] eqn:Hs;
    [|vm_compute in Hs; discriminate].
  destruct (send_alls _ !! 0%nat) as [f|] eqn:Hf;
    [|vm_compute in Hf; discriminate].
  exact (H s f eq_refl eq_refl).
Defined.

(** ** The elapsed-time denominator across the whole program *)

Lemma sum_senders_insert (due : Sender -> SendAllFrame -> Z)
    (ss : list Sender) (fs : list SendAllFrame)
    (i : nat) (s s' : Sender) (f f' : SendAllFrame) :
  ss !! i = Some s -> fs !! i = Some f ->
  sum_senders due (<[i := s']> ss) (<[i := f']> fs)
  = (sum_senders due ss fs - due s f + due s' f')%Z.
Proof.
  revert fs i. induction ss as [|s0 ss IH]; intros fs i Hs Hf; [done|].
  destruct fs as [|f0 fs]; [done|]. destruct i as [|i].
  - injection Hs as ->. injection Hf as ->. cbn. lia.
  - cbn in Hs, Hf.
    change (<[S i := s']> (s0 :: ss)) with (s0 :: <[i := s']> ss).
    change (<[S i := f']> (f0 :: fs)) with (f0 :: <[i := f']> fs).
    cbn [sum_senders]. rewrite (IH fs i Hs Hf). lia.
Qed.

Lemma sum_senders_zero (due : Sender -> SendAllFrame -> Z)
    (ss : list Sender) (fs : list SendAllFrame) :
  (forall j s f, ss !! j = Some s -> fs !! j = Some f -> due s f = 0%Z) ->
  sum_senders due ss fs = 0%Z.
Proof.
  revert fs. induction ss as [|s0 ss IH]; intros fs H; [done|].
  destruct fs as [|f0 fs]; [done|]. cbn [sum_senders].
  rewrite (H 0%nat s0 f0 eq_refl eq_refl), IH; [done|].
  intros j s f Hs Hf. by apply (H (S j)).
Qed.

Lemma sum_senders_nonneg (due : Sender -> SendAllFrame -> Z)
    (ss : list Sender) (fs : list SendAllFrame) :
  (forall j s f, ss !! j = Some s -> fs !! j = Some f -> (0 <= due s f)%Z) ->
  (0 <= sum_senders due ss fs)%Z.
Proof.
  revert fs. induction ss as [|s0 ss IH]; intros fs H; [done|].
  destruct fs as [|f0 fs]; [done|]. cbn [sum_senders].
  pose proof (H 0%nat s0 f0 eq_refl eq_refl).
  assert (0 <= sum_senders due ss fs)%Z; [|lia].
  apply IH. intros j s f Hs Hf. by apply (H (S j)).
Qed.

Lemma sum_senders_insert_sender (due : Sender -> SendAllFrame -> Z)
    (ss : list Sender) (fs : list SendAllFrame) (i : nat) (s s' : Sender)
    (f : SendAllFrame) :
  ss !! i = Some s -> fs !! i = Some f ->
  sum_senders due (<[i := s']> ss) fs
  = (sum_senders due ss fs - due s f + due s' f)%Z.
Proof.
  intros Hs Hf. pose proof (sum_senders_insert due ss fs i s s' f f Hs Hf) as H.
  by rewrite (list_insert_id fs i f Hf) in H.
Qed.

(** Senders that have not begun stand for their messages. *)
Lemma sum_senders_fresh (due : Sender -> SendAllFrame -> Z) (fr : float)
    (ss : list Sender) (fs : list SendAllFrame) :
  (forall s f, fresh fr s -> pc f = L54_set_is_sending ->
               due s f = Z.of_nat (length (messages s))) ->
  length fs = length ss ->
  Forall (fresh fr) ss ->
  Forall (fun f => pc f = L54_set_is_sending) fs ->
  sum_senders due ss fs = Z.of_nat (length (concat (map messages ss))).
Proof.
  intros Hdue. revert fs.
  induction ss as [|s ss IH]; intros [|f fs] Hlen Hss Hfs; try done.
  apply Forall_cons in Hss as [Hs Hss]. apply Forall_cons in Hfs as [Hf Hfs].
  cbn [sum_senders map concat].
  rewrite length_app, IH, Hdue by (done || by injection Hlen). lia.
Qed.

Lemma elapsed_inv_forget (K : Z) (s : Sender) (f : SendAllFrame)
    (g : GetAndResetFrame) (h : list Stats) :
  elapsed_inv K (mkSenderSystem s f g h) ->
  elapsed_inv (denominator_due s f + harvest_in_hand g)
    (mkSenderSystem s f g []) /\
  (harvested_elapsed_time_denominator (mkSenderSystem s f g h)
   + denominator_due s f + harvest_in_hand g = K)%Z.
Proof.
  intros (H1 & H2 & H3 & H4 & H5 & H6).
  unfold elapsed_inv, denominator_due, harvested_elapsed_time_denominator in *.
  cbn [the_sender send_all_of harvest_of harvested foldr] in *.
  split_and!; try done; lia.
Qed.

Lemma elapsed_inv_trivial_balance (K : Z) (s : Sender) (f : SendAllFrame)
    (g : GetAndResetFrame) :
  elapsed_inv K (mkSenderSystem s f g []) ->
  K = (denominator_due s f + harvest_in_hand g)%Z.
Proof.
  intros H. apply elapsed_inv_forget in H as [_ H].
  unfold harvested_elapsed_time_denominator in H. cbn in H. lia.
Qed.

Lemma world_elapsed_inv_sender_step (N : Z) (i : nat) (w : World) :
  world_elapsed_inv N w -> world_elapsed_inv N (world_step (sender_thread i) w).
Proof.
  intros [Hloc Hbal]. unfold world_step.
  destruct (senders w !! i) as [s|] eqn:Hs; [|done].
  destruct (send_alls w !! i) as [f|] eqn:Hf; [|done].
  destruct (send_all_step s f) as [[s' f']|] eqn:Hstep; [|done].
  pose proof (elapsed_inv_send_all _ _ _ _ _ _ _ Hstep (Hloc i s f Hs Hf)) as Hi.
  pose proof (elapsed_inv_trivial_balance _ _ _ _ Hi) as HK.
  split; cbn [senders send_alls monitor].
  - intros j s1 f1 Hs1 Hf1. destruct (decide (j = i)) as [->|Hne].
    + rewrite list_lookup_insert_eq in Hs1 by (by eapply lookup_lt_Some).
      rewrite list_lookup_insert_eq in Hf1 by (by eapply lookup_lt_Some).
      injection Hs1 as <-. injection Hf1 as <-. by rewrite <- HK.
    + rewrite list_lookup_insert_ne in Hs1 by done.
      rewrite list_lookup_insert_ne in Hf1 by done. by apply Hloc.
  - rewrite (sum_senders_insert _ _ _ _ _ _ _ _ Hs Hf). lia.
Qed.

Lemma world_elapsed_inv_monitor_step (N : Z) (w : World) :
  world_paired w ->
  world_elapsed_inv N w -> world_elapsed_inv N (world_step monitor_thread w).
Proof.
  intros [Hlen _] [Hloc Hbal]. unfold world_step.
  destruct (monitor_step _ _) as [[ss m']|] eqn:Hstep; [|done].
  destruct w as [ss0 fs m]. unfold world_elapsed_inv.
  cbn [senders send_alls monitor] in *.
  destruct m as [u ns nf te td l lp acs win ent].
  unfold monitor_step in Hstep. cbn [mpc] in Hstep.
  unfold harvest_on, monitor_in_hand in *.
  cbn [mpc monitor_elapsed_time_denominator] in *.
  destruct l; try discriminate.
  all: try (injection Hstep as <- <-; cbn in *; by split).
  - destruct (ss0 !! i) as [s|]; [destruct (is_sending s)|destruct (negb _)];
      injection Hstep as <- <-; cbn in *; by split.
  - destruct (ss0 !! i); injection Hstep as <- <-; cbn in *; [|by split].
    split; [|done]. intros j s1 f1 Hs1 Hf1. destruct (decide (i = j)); cbn; by apply (Hloc j).
  - cbn in Hstep. destruct (ss0 !! i) as [s|] eqn:Hs; [|done]. cbn in Hstep.
    destruct (get_and_reset_stats_step s g) as [[s' g']|] eqn:Hg; [|done].
    cbn in Hstep.
    destruct (lookup_lt_is_Some_2 fs i) as [f Hf].
    { rewrite Hlen. by eapply lookup_lt_Some. }
    pose proof (Hloc i s f Hs Hf) as Hi.
    destruct (decide (i = i)) as [_|] in Hi; [|done].
    apply elapsed_inv_harvest in Hi. unfold sender_system_step in Hi.
    cbn [the_sender harvest_of send_all_of harvested] in Hi. rewrite Hg in Hi.
    assert (Hother : forall j s1 f1, j <> i ->
              <[i := s']> ss0 !! j = Some s1 -> fs !! j = Some f1 ->
              elapsed_inv (denominator_due s1 f1
                           + harvest_in_hand get_and_reset_stats_frame)
                (mkSenderSystem s1 f1 get_and_reset_stats_frame [])).
    { intros j s1 f1 Hne Hs1 Hf1. rewrite list_lookup_insert_ne in Hs1 by done.
      pose proof (Hloc j s1 f1 Hs1 Hf1) as Hj.
      by destruct (decide (i = j)) in Hj. }
    apply elapsed_inv_forget in Hi as [Hi HK].
    unfold harvested_elapsed_time_denominator in HK.
    destruct (gpc g') eqn:Hg'; injection Hstep as <- <-;
      cbn [mpc mgoto monitor_elapsed_time_denominator harvested foldr
           the_sender send_all_of harvest_of] in *;
      rewrite (sum_senders_insert_sender _ _ _ _ _ s' _ Hs Hf).
    all: split; [|cbn in HK |- *; lia].
    all: intros j s1 f1 Hs1 Hf1; destruct (decide (j = i)) as [->|Hne];
      [rewrite list_lookup_insert_eq in Hs1 by (by eapply lookup_lt_Some);
       injection Hs1 as <-; rewrite Hf in Hf1; injection Hf1 as <-
      |].
    all: try (destruct (decide (i = i)) as [_|]; [done|done]).
    all: try (destruct (decide (i = j)) as [->|_]; [done|by eapply Hother]).
    all: try (by eapply Hother).
    all: done.
  - injection Hstep as <- <-. cbn in *. split; [done|lia].
  - destruct (average_delay _); injection Hstep as <- <-; cbn in *; by split.
Qed.

Lemma world_elapsed_inv_run (N : Z) (sched : list ThreadId) (w : World) :
  world_paired w -> world_elapsed_inv N w ->
  world_elapsed_inv N (world_run sched w).
Proof.
  revert w. induction sched as [|t sched IH]; intros w Hp Hw; [done|].
  apply (IH (world_step t w)); [by apply world_paired_step|].
  destruct t; [by apply world_elapsed_inv_sender_step
              |by apply world_elapsed_inv_monitor_step].
Qed.

Lemma last_pass_inv_sender_step (i : nat) (w : World) :
  last_pass_inv w -> last_pass_inv (world_step (sender_thread i) w).
Proof.
  intros (HA1 & HA2 & HC & HB). unfold world_step.
  destruct (senders w !! i) as [s|] eqn:Hs; [|done].
  destruct (send_alls w !! i) as [f|] eqn:Hf; [|done].
  destruct (send_all_step s f) as [[s' f']|] eqn:Hstep; [|done].
  assert (Hnot : ~ all_returned w).
  { intros Hall. by rewrite (send_all_step_returned s f (Hall i f Hf)) in Hstep. }
  unfold last_pass_inv. cbn [monitor]. split_and!.
  - intros H1 H2. by destruct Hnot; apply HA1.
  - intros H1 H2 H3. by destruct Hnot; apply HA2.
  - done.
  - intros Hlp. destruct (mpc (monitor w)) eqn:Hm; try done;
      destruct Hnot; apply HA2; try done; by rewrite Hm.
Qed.

(** ** What the last pass leaves behind *)

Ltac feed_premises H :=
  repeat match type of H with
         | ?P -> _ => let h := fresh in assert (h : P) by done; specialize (H h); clear h
         end.

Ltac last_pass_close HA1 HA2 HC HB :=
  split_and!;
  try (by intros [|]);
  intros; try done; try lia;
  try (feed_premises HA1; by eauto);
  try (feed_premises HA2; by eauto);
  try (feed_premises HC; by eauto);
  try (feed_premises HB; by eauto).

Lemma last_pass_inv_monitor_step (w : World) :
  world_paired w -> scan_inv w ->
  last_pass_inv w -> last_pass_inv (world_step monitor_thread w).
Proof.
  intros [Hlen _] (_ & Hscan & _) (HA1 & HA2 & HC & HB). unfold world_step.
  destruct (monitor_step _ _) as [[ss m']|] eqn:Hstep; [|done].
  destruct w as [ss0 fs m].
  unfold last_pass_inv, all_returned, harvested_below, all_harvested in *.
  cbn [senders send_alls monitor] in *.
  destruct m as [u ns nf te td l lp acs win ent].
  unfold monitor_step in Hstep. cbn [mpc last_pass actively_sending] in *.
  destruct l; try discriminate.
  - injection Hstep as <- <-. cbn. last_pass_close HA1 HA2 HC HB.
  - destruct (ss0 !! i) as [s|] eqn:Hs; [destruct (is_sending s)|destruct lp];
      injection Hstep as <- <-; cbn in *; last_pass_close HA1 HA2 HC HB.
    apply (Hscan i eq_refl i0 f); [|done].
    apply lookup_ge_None in Hs. apply lookup_lt_Some in H1. lia.
  - injection Hstep as <- <-. destruct acs; cbn in *;
      last_pass_close HA1 HA2 HC HB.
  - destruct (ss0 !! i) as [s|] eqn:Hs; injection Hstep as <- <-; cbn in *;
      last_pass_close HA1 HA2 HC HB.
    apply (HB H j s); [|done].
    apply lookup_ge_None in Hs. apply lookup_lt_Some in H0. lia.
  - cbn in Hstep. destruct (ss0 !! i) as [s|] eqn:Hs; [|done]. cbn in Hstep.
    destruct (get_and_reset_stats_step s g) as [[s' g']|] eqn:Hg; [|done].
    cbn in Hstep.
    assert (Hbelow : lp = true -> forall j s1, j < i ->
                     <[i := s']> ss0 !! j = Some s1 -> stats_harvested s1).
    { intros Hlp j s1 Hj Hs1. rewrite list_lookup_insert_ne in Hs1 by lia.
      by apply (HB Hlp) in Hs1. }
    assert (Hat : lp = true -> gpc g' = L82_return \/ gpc g' = GetAndReset_returned ->
                  stats_harvested s').
    { intros Hlp Hg'. destruct (HB Hlp) as [_ Hi]. specialize (fun H => Hi H s eq_refl).
      destruct s, g as [gp gt]. unfold get_and_reset_stats_step in Hg.
      cbn in Hg, Hi. destruct gp; cbn in Hg; try discriminate.
      - destruct elapsed_time_lock0; cbn in Hg; [done|].
        injection Hg as <- <-. by destruct Hg'.
      - injection Hg as <- <-. by destruct Hg'.
      - by injection Hg as <- <-.
      - injection Hg as <- <-. by apply Hi. }
    assert (Hi : forall s1, <[i := s']> ss0 !! i = Some s1 -> s1 = s').
    { intros s1 Hs1.
      rewrite list_lookup_insert_eq in Hs1 by (by eapply lookup_lt_Some).
      by injection Hs1. }
    clear HB.
    destruct (gpc g') eqn:Hg'; injection Hstep as <- <-; cbn in *;
      last_pass_close HA1 HA2 HC Hbelow.
    1-4: split; [by apply Hbelow|]; intros Hr s1 Hs1; try congruence;
      apply Hi in Hs1 as ->; (apply Hat; [done|by left]).
    destruct (decide (j = i)) as [->|Hne].
    + apply Hi in H1 as ->. apply Hat; [done|by right].
    + apply (Hbelow H j s0); [lia|done].
  - injection Hstep as <- <-. cbn in *. last_pass_close HA1 HA2 HC HB.
  - destruct (average_delay _); injection Hstep as <- <-; cbn in *;
      last_pass_close HA1 HA2 HC HB.
  - injection Hstep as <- <-. cbn in *. last_pass_close HA1 HA2 HC HB.
  - injection Hstep as <- <-. cbn in *. last_pass_close HA1 HA2 HC HB.
Qed.

Lemma last_pass_inv_run (sched : list ThreadId) (w : World) :
  world_paired w -> scan_inv w -> last_pass_inv w ->
  last_pass_inv (world_run sched w).
Proof.
  revert w. induction sched as [|t sched IH]; intros w Hp Hs Hl; [done|].
  apply (IH (world_step t w)).
  - by apply world_paired_step.
  - by apply scan_inv_step.
  - destruct t; [by apply last_pass_inv_sender_step
                |by apply last_pass_inv_monitor_step].
Qed.

Lemma main_world_elapsed_inv (produced : list Message) (S : Z)
    (d fr u : float) (answers : nat -> list Attempt) (w : World) :
  main produced S d fr u answers = Ok w ->
  world_elapsed_inv (Z.of_nat (length produced)) w.
Proof.
  intros Hmain. unfold main in Hmain.
  assert (HS : (1 <= S)%Z).
  { unfold array_split in Hmain. destruct (Z.leb_spec S 0); [done|lia]. }
  rewrite array_split_sections in Hmain by done.
  set (sizes := repeat _ _ ++ _) in *. cbn [bind] in Hmain.
  destruct (mapM _ _) as [ss|] eqn:Hss; cbn [bind] in Hmain; [|done].
  injection Hmain as <-.
  apply mapM_Ok, Sender_init_each in Hss as [Hms Hfresh].
  assert (Hcat : concat (map messages ss) = produced).
  { rewrite Hms. apply concat_split_sizes, section_sizes_sum. lia. }
  assert (Hfs : Forall (fun f => pc f = L54_set_is_sending)
                  (map (fun i => send_all_frame (answers i)) (seq 0 (length ss)))).
  { change (map ?f ?l) with (f <$> l). by apply Forall_fmap, Forall_true. }
  split; cbn [senders send_alls monitor].
  - intros j s f Hs Hf.
    assert (Hpc : pc f = L54_set_is_sending).
    { rewrite Forall_lookup in Hfs. by apply (Hfs j). }
    rewrite Forall_lookup in Hfresh.
    destruct (Hfresh j s Hs) as (_ & _ & _ & _ & _ & Hlock & _).
    unfold elapsed_inv, holds_elapsed_lock, in_loop_body, counted_not_removed,
      denominator_due, harvested_elapsed_time_denominator.
    cbn. rewrite Hlock, Hpc. split_and!; try done.
    unfold counted_not_removed. rewrite Hpc. lia.
  - rewrite (sum_senders_fresh _ fr), Hcat; try done.
    + cbn. lia.
    + intros s f (_ & _ & _ & _ & _ & _ & _ & Hden & _) Hpc.
      unfold denominator_due, counted_not_removed. rewrite Hden, Hpc. lia.
    + by rewrite length_map, length_seq.
Qed.

(** X13. If every sender's coroutine has executed line 54 before the
    monitor begins, then, however the threads interleave, a monitor that
    has returned has counted every produced message exactly once in the
    denominator of its average: [elapsed_time_denominator] is the number
    of messages produced, and no sender has anything left to harvest -
    all four of its counters are zero. (The same is not claimed for the
    sent and failed totals, whose locks line 79 does not hold.) *)
Theorem monitor_counts_every_message (produced : list Message) (S : Z)
    (d fr u : float) (answers : nat -> list Attempt) (w : World)
    (sched0 sched1 : list ThreadId) :
  main produced S d fr u answers = Ok w ->
  let w0 := world_run sched0 w in
  all_started w0 ->
  mpc (monitor w0) = L95_last_pass_init ->
  let w1 := world_run sched1 w0 in
  mpc (monitor w1) = Monitor_returned ->
  monitor_elapsed_time_denominator (monitor w1) = Z.of_nat (length produced) /\
  all_harvested w1.
Proof.
  intros Hmain w0 Hstarted Hmon w1 Hret.
  assert (Hp0 : world_paired w0)
    by (apply world_paired_run; by eapply main_world_paired).
  assert (He0 : world_elapsed_inv (Z.of_nat (length produced)) w0).
  { apply world_elapsed_inv_run; [by eapply main_world_paired|].
    by eapply main_world_elapsed_inv. }
  assert (Hs0 : scan_inv w0).
  { split_and!; [done|..].
    - intros k Hk. by rewrite Hmon in Hk.
    - intros [Hk|Hk]; by rewrite Hmon in Hk. }
  assert (Hl0 : last_pass_inv w0).
  { unfold last_pass_inv. cbn zeta. rewrite Hmon. split_and!; try done.
    by intros [|]. }
  destruct (scan_inv_run sched1 w0 Hp0 Hs0) as [[_ Hpair] (_ & _ & Hexit)].
  pose proof (last_pass_inv_run sched1 w0 Hp0 Hs0 Hl0) as (_ & _ & HC & HB).
  pose proof (world_elapsed_inv_run _ sched1 w0 Hp0 He0) as [_ Hbal].
  fold w1 in Hpair, Hexit, HC, HB, Hbal.
  specialize (Hexit (or_intror Hret)). specialize (HB (HC (or_intror Hret))).
  rewrite Hret in HB. split; [|done].
  unfold monitor_in_hand in Hbal. rewrite Hret in Hbal.
  rewrite sum_senders_zero in Hbal; [lia|].
  intros j s f Hs Hf.
  destruct (Hpair j s f Hs Hf) as (_ & _ & _ & _ & Hleft & _).
  destruct (HB j s Hs) as (_ & _ & _ & Hden).
  pose proof (Hexit j f Hf) as Hpc.
  unfold denominator_due, counted_not_removed.
  rewrite Hden, Hpc, Hleft; [done|]. unfold loop_left. by rewrite Hpc.
Qed.

Lemma monitor_counts_every_message_witness :
  monitor_elapsed_time_denominator
    (monitor (world_run sched_after_start (world_run sched_start world_demo)))
  = 1%Z /\
  all_harvested (world_run sched_after_start (world_run sched_start world_demo)).
Proof.
  assert (Hstarted : all_started (world_run sched_start world_demo)).
  { intros [|i] f; vm_compute; intros [= <-]; discriminate. }
  assert (Hbegin : mpc (monitor (world_run sched_start world_demo))
                   = L95_last_pass_init) by (vm_compute; reflexivity).
  assert (Hend : mpc (monitor (world_run sched_after_start
                                 (world_run sched_start world_demo)))
                 = Monitor_returned) by (vm_compute; reflexivity).
  exact (monitor_counts_every_message [msg1] 1 1 0 1
           (fun _ => [succeed_a]) world_demo sched_start sched_after_start
           eq_refl Hstarted Hbegin Hend).
Defined.


(** ** A harvest between the read and the write of line 75 *)



(** ** A pass of the monitor with no other thread in between *)

Lemma insert_middle {A} (pre rest : list A) (x y : A) :
  <[length pre := y]> (pre ++ x :: rest) = pre ++ y :: rest.
Proof.
  rewrite <- (Nat.add_0_r (length pre)) at 1. by rewrite insert_app_r.
Qed.

Lemma world_step_harvest (pre rest : list Sender) (s s' : Sender)
    (fs : list SendAllFrame) (m : Monitor) (g g' : GetAndResetFrame) :
  mpc m = L99_call (length pre) g ->
  get_and_reset_stats_step s g = Some (s', g') ->
  world_step monitor_thread (mkWorld (pre ++ s :: rest) fs m)
  = mkWorld (pre ++ s' :: rest) fs
      (mgoto match gpc g' with
             | GetAndReset_returned => L100_accumulate (length pre) (stats g')
             | _ => L99_call (length pre) g'
             end m).
Proof.
  intros Hm Hg. unfold world_step, monitor_step. cbn [senders monitor send_alls].
  rewrite Hm, list_lookup_middle by done. cbn. rewrite Hg. cbn.
  destruct (gpc g'); by rewrite insert_middle.
Qed.

Lemma harvest_one (pre rest : list Sender) (s : Sender)
    (fs : list SendAllFrame) (m : Monitor) :
  mpc m = L98_for (length pre) ->
  elapsed_time_lock s = false ->
  world_run (repeat monitor_thread 6) (mkWorld (pre ++ s :: rest) fs m)
  = mkWorld (pre ++ reset_stats s :: rest) fs
      (mgoto (L98_for (length pre + 1)) (accumulate (stats_of s) m)).
Proof.
  intros Hm Hlock. unfold world_run. cbn [repeat foldl].
  assert (H1 : world_step monitor_thread (mkWorld (pre ++ s :: rest) fs m)
               = mkWorld (pre ++ s :: rest) fs
                   (mgoto (L99_call (length pre) get_and_reset_stats_frame) m)).
  { unfold world_step, monitor_step. cbn [senders monitor send_alls].
    by rewrite Hm, list_lookup_middle. }
  rewrite H1.
  destruct s; cbn in Hlock; subst.
  do 4 (erewrite world_step_harvest; [|reflexivity|reflexivity]; cbn [gpc]).
  destruct m. cbn in Hm. subst. reflexivity.
Qed.

Lemma accumulate_all_mgoto (l l' : MonitorPc) (ss : list Sender) (m : Monitor) :
  mgoto l (accumulate_all ss (mgoto l' m)) = mgoto l (accumulate_all ss m).
Proof.
  revert m. induction ss as [|s ss IH]; intros m; [done|].
  cbn [accumulate_all foldl].
  change (accumulate (stats_of s) (mgoto l' m))
    with (mgoto l' (accumulate (stats_of s) m)).
  apply IH.
Qed.

Lemma pass_alone_from (pre rest : list Sender) (fs : list SendAllFrame)
    (m : Monitor) :
  mpc m = L98_for (length pre) ->
  Forall (fun s => elapsed_time_lock s = false) rest ->
  world_run (repeat monitor_thread (6 * length rest + 1)) (mkWorld (pre ++ rest) fs m)
  = mkWorld (pre ++ map reset_stats rest) fs
      (mgoto L104_display (accumulate_all rest m)).
Proof.
  revert pre m. induction rest as [|s rest IH]; intros pre m Hm Hfree.
  - cbn. unfold world_step, monitor_step. cbn [senders monitor send_alls].
    rewrite Hm, app_nil_r, lookup_ge_None_2 by done. done.
  - apply Forall_cons in Hfree as [Hs Hfree].
    replace (6 * length (s :: rest) + 1) with (6 + (6 * length rest + 1))
      by (cbn [length]; lia).
    rewrite repeat_app, world_run_app, harvest_one by done.
    rewrite (cons_middle (reset_stats s) pre rest), app_assoc.
    rewrite IH; [|by rewrite length_app|done].
    rewrite <- app_assoc, accumulate_all_mgoto. done.
Qed.

Lemma accumulate_all_totals (ss : list Sender) (m : Monitor) :
  let m' := accumulate_all ss m in
  monitor_num_messages_sent m'
  = (monitor_num_messages_sent m + sum_of num_messages_sent ss)%Z /\
  monitor_num_messages_failed m'
  = (monitor_num_messages_failed m + sum_of num_messages_failed ss)%Z /\
  monitor_elapsed_time_denominator m'
  = (monitor_elapsed_time_denominator m + sum_of elapsed_time_denominator ss)%Z /\
  monitor_total_elapsed_time m'
  = foldl (fun t s => (t + elapsed_time s)%float) (monitor_total_elapsed_time m) ss /\
  update_delay m' = update_delay m /\ last_pass m' = last_pass m /\
  actively_sending m' = actively_sending m /\ window m' = window m /\
  entered m' = entered m.
Proof.
  revert m. induction ss as [|s ss IH]; intros m.
  - cbn. split_and!; try done; lia.
  - cbn zeta in *. cbn [accumulate_all foldl sum_of foldr].
    destruct (IH (accumulate (stats_of s) m)) as (H1 & H2 & H3 & H4 & H5).
    fold (accumulate_all ss (accumulate (stats_of s) m)).
    rewrite H1, H2, H3, H4. fold (sum_of num_messages_sent ss)
      (sum_of num_messages_failed ss) (sum_of elapsed_time_denominator ss).
    cbn. split_and!; try done; try lia; apply H5.
Qed.

(** X15. A pass of the monitor that no sender thread interrupts, over
    senders whose elapsed-time lock is free, takes six steps per sender
    and one more to reach the display; it leaves every sender with its
    four counters reset and everything else as it was, and it has added
    to the monitor's totals exactly the senders' counts, and to its
    elapsed time their elapsed times in order. *)
Theorem pass_alone_harvests_all (w : World) :
  mpc (monitor w) = L98_for 0 ->
  Forall (fun s => elapsed_time_lock s = false) (senders w) ->
  let w' := world_run (repeat monitor_thread (6 * length (senders w) + 1)) w in
  let m := monitor w in
  let m' := monitor w' in
  mpc m' = L104_display /\
  senders w' = map reset_stats (senders w) /\
  send_alls w' = send_alls w /\
  monitor_num_messages_sent m'
  = (monitor_num_messages_sent m + sum_of num_messages_sent (senders w))%Z /\
  monitor_num_messages_failed m'
  = (monitor_num_messages_failed m + sum_of num_messages_failed (senders w))%Z /\
  monitor_elapsed_time_denominator m'
  = (monitor_elapsed_time_denominator m
     + sum_of elapsed_time_denominator (senders w))%Z /\
  monitor_total_elapsed_time m'
  = foldl (fun t s => (t + elapsed_time s)%float)
      (monitor_total_elapsed_time m) (senders w) /\
  window m' = window m /\ entered m' = entered m.
Proof.
  intros Hm Hfree. destruct w as [ss fs m]. cbn [senders send_alls monitor] in *.
  cbn zeta. pose proof (pass_alone_from [] ss fs m Hm Hfree) as Hpass.
  cbn [app] in Hpass. rewrite Hpass. cbn [senders send_alls monitor].
  destruct (accumulate_all_totals ss m) as (H1 & H2 & H3 & H4 & _ & _ & _ & H5 & H6).
  split_and!; done.
Qed.

Lemma pass_alone_harvests_all_witness :
  let w := mkWorld [set_num_messages_sent 2 sender1; sender_reliable] []
             (mgoto (L98_for 0) (Monitor_init 1)) in
  let w' := world_run (repeat monitor_thread 13) w in
  mpc (monitor w') = L104_display /\
  senders w' = [sender1; sender_reliable] /\
  monitor_num_messages_sent (monitor w') = 2%Z.
Proof.
  intros w w'.
  destruct (pass_alone_harvests_all w eq_refl) as (H1 & H2 & _ & H3 & _).
  - repeat constructor.
  - split_and!; [exact H1|exact H2|exact H3].
Defined.

(** ** The monitor after the senders *)

Lemma scan_alone (pre rest : list Sender) (fs : list SendAllFrame)
    (m : Monitor) :
  mpc m = L96_any (length pre) ->
  Forall (fun s => is_sending s = false) rest ->
  world_run (repeat monitor_thread (length rest + 1)) (mkWorld (pre ++ rest) fs m)
  = mkWorld (pre ++ rest) fs
      (mgoto (if last_pass m then L111_prompt else L97_last_pass)
         (set_actively_sending false m)).
Proof.
  revert pre m. induction rest as [|s rest IH]; intros pre m Hm Hidle.
  - cbn. unfold world_step, monitor_step. cbn [senders monitor send_alls].
    rewrite Hm, app_nil_r, lookup_ge_None_2 by done. by destruct (last_pass m).
  - apply Forall_cons in Hidle as [Hs Hidle].
    replace (length (s :: rest) + 1) with (1 + (length rest + 1))
      by (cbn [length]; lia).
    rewrite repeat_app, world_run_app.
    change (world_run (repeat monitor_thread 1) ?w)
      with (world_step monitor_thread w).
    assert (H1 : world_step monitor_thread (mkWorld (pre ++ s :: rest) fs m)
                 = mkWorld (pre ++ s :: rest) fs
                     (mgoto (L96_any (length pre + 1)) m)).
    { unfold world_step, monitor_step. cbn [senders monitor send_alls].
      by rewrite Hm, list_lookup_middle, Hs. }
    rewrite H1, (cons_middle s pre rest), app_assoc.
    rewrite IH; [done|by rewrite length_app|done].
Qed.

Lemma sender_step_monitor (i : nat) (w : World) :
  monitor (world_step (sender_thread i) w) = monitor w.
Proof.
  unfold world_step.
  destruct (senders w !! i) as [s|]; [|done].
  destruct (send_alls w !! i) as [f|]; [|done].
  by destruct (send_all_step s f) as [[s' f']|].
Qed.

Lemma sender_step_sent_due (i : nat) (w : World) :
  world_paired w -> world_read_current w ->
  let w' := world_step (sender_thread i) w in
  world_read_current w' /\
  sum_senders sent_due (senders w') (send_alls w')
  = sum_senders sent_due (senders w) (send_alls w).
Proof.
  intros [_ Hpair] Hread. cbn zeta. unfold world_step.
  destruct (senders w !! i) as [s|] eqn:Hs; [|done].
  destruct (send_alls w !! i) as [f|] eqn:Hf; [|done].
  destruct (send_all_step s f) as [[s' f']|] eqn:Hstep; [|done].
  destruct (Hpair i s f Hs Hf) as (_ & _ & _ & Hbody & _).
  pose proof (send_all_step_count _ _ _ _ Hstep Hbody (Hread i s f Hs Hf))
    as (Hcount & _ & Hread').
  cbn [senders send_alls]. split.
  - intros j s1 f1 Hs1 Hf1. cbn [senders send_alls] in Hs1, Hf1.
    destruct (decide (j = i)) as [->|Hne].
    + rewrite list_lookup_insert_eq in Hs1 by (by eapply lookup_lt_Some).
      rewrite list_lookup_insert_eq in Hf1 by (by eapply lookup_lt_Some).
      by injection Hs1 as <-; injection Hf1 as <-.
    + rewrite list_lookup_insert_ne in Hs1 by done.
      rewrite list_lookup_insert_ne in Hf1 by done. by apply (Hread j).
  - rewrite (sum_senders_insert _ _ _ _ _ _ _ _ Hs Hf).
    assert (sent_due s' f' = sent_due s f) by exact Hcount. lia.
Qed.

Lemma senders_run (sched : list ThreadId) (w : World) :
  Forall (fun t => t <> monitor_thread) sched ->
  world_paired w -> world_read_current w ->
  let w' := world_run sched w in
  monitor w' = monitor w /\
  sum_senders sent_due (senders w') (send_alls w')
  = sum_senders sent_due (senders w) (send_alls w).
Proof.
  revert w. induction sched as [|t sched IH]; intros w Hsched Hp Hr; [done|].
  apply Forall_cons in Hsched as [Ht Hsched]. destruct t as [i|]; [|done].
  cbn zeta in *. change (world_run (sender_thread i :: sched) w)
    with (world_run sched (world_step (sender_thread i) w)).
  destruct (sender_step_sent_due i w Hp Hr) as [Hr' Hsum].
  destruct (IH (world_step (sender_thread i) w) Hsched) as [H1 H2];
    [by apply world_paired_step|done|].
  by rewrite H1, H2, sender_step_monitor, Hsum.
Qed.

Lemma sum_senders_sum_of (due : Sender -> SendAllFrame -> Z) (c : Sender -> Z)
    (ss : list Sender) (fs : list SendAllFrame) :
  length fs = length ss ->
  (forall j s f, ss !! j = Some s -> fs !! j = Some f -> due s f = c s) ->
  sum_senders due ss fs = sum_of c ss.
Proof.
  revert fs. induction ss as [|s ss IH]; intros [|f fs] Hlen H; try done.
  cbn [sum_senders sum_of foldr]. fold (sum_of c ss).
  rewrite (H 0%nat s f eq_refl eq_refl), (IH fs); [done|by injection Hlen|].
  intros j s1 f1 Hs1 Hf1. by apply (H (S j)).
Qed.

Lemma main_world_fresh (produced : list Message) (S : Z)
    (d fr u : float) (answers : nat -> list Attempt) (w : World) :
  main produced S d fr u answers = Ok w ->
  concat (map messages (senders w)) = produced /\
  Forall (fresh fr) (senders w) /\
  Forall (fun f => pc f = L54_set_is_sending) (send_alls w) /\
  length (send_alls w) = length (senders w).
Proof.
  intros Hmain. unfold main in Hmain.
  assert (HS : (1 <= S)%Z).
  { unfold array_split in Hmain. destruct (Z.leb_spec S 0); [done|lia]. }
  rewrite array_split_sections in Hmain by done.
  set (sizes := repeat _ _ ++ _) in *. cbn [bind] in Hmain.
  destruct (mapM _ _) as [ss|] eqn:Hss; cbn [bind] in Hmain; [|done].
  injection Hmain as <-. cbn [senders send_alls].
  apply mapM_Ok, Sender_init_each in Hss as [Hms Hfresh].
  split_and!; [|done| |by rewrite length_map, length_seq].
  - rewrite Hms. apply concat_split_sizes, section_sizes_sum. lia.
  - change (map ?f ?l) with (f <$> l). by apply Forall_fmap, Forall_true.
Qed.

Lemma main_sum_sent_due (produced : list Message) (S : Z)
    (d fr u : float) (answers : nat -> list Attempt) (w : World) :
  main produced S d fr u answers = Ok w ->
  sum_senders sent_due (senders w) (send_alls w) = Z.of_nat (length produced).
Proof.
  intros Hmain.
  destruct (main_world_fresh _ _ _ _ _ _ _ Hmain) as (Hcat & Hfresh & Hfs & Hlen).
  rewrite (sum_senders_fresh _ fr), Hcat; try done.
  intros s f (_ & _ & Hsent & _) Hpc.
  unfold sent_due, in_flight. rewrite Hsent, Hpc. lia.
Qed.

(** X16. If every sender's thread has run to the end of [send_all]
    before the monitor's thread takes its first step, then the monitor,
    running on, finds no sender sending at its first test, enters the
    pass that will be its last, and by the time it reaches the display
    has counted every produced message once as sent and once in the
    denominator of the average, and as failed what the senders counted
    as failed. *)
Theorem monitor_after_senders_counts_all (produced : list Message) (S : Z)
    (d fr u : float) (answers : nat -> list Attempt) (w : World)
    (sched0 : list ThreadId) :
  main produced S d fr u answers = Ok w ->
  Forall (fun t => t <> monitor_thread) sched0 ->
  let w0 := world_run sched0 w in
  all_returned w0 ->
  let w1 := world_run (repeat monitor_thread (7 * length (senders w0) + 4)) w0 in
  mpc (monitor w1) = L104_display /\
  last_pass (monitor w1) = true /\
  monitor_num_messages_sent (monitor w1) = Z.of_nat (length produced) /\
  monitor_elapsed_time_denominator (monitor w1) = Z.of_nat (length produced) /\
  monitor_num_messages_failed (monitor w1)
  = sum_of num_messages_failed (senders w0) /\
  senders w1 = map reset_stats (senders w0).
Proof.
  intros Hmain Hsched w0 Hret.
  pose proof (main_world_paired _ _ _ _ _ _ _ Hmain) as Hp.
  pose proof (world_paired_run sched0 w Hp) as Hp0.
  assert (Hr : world_read_current w).
  { destruct (main_world_fresh _ _ _ _ _ _ _ Hmain) as (_ & _ & Hfs & _).
    intros i s f _ Hf. rewrite Forall_lookup in Hfs.
    unfold sent_read_current. by rewrite (Hfs i f Hf). }
  destruct (senders_run sched0 w Hsched Hp Hr) as [Hmon Hsent].
  pose proof (world_elapsed_inv_run _ sched0 w Hp
                (main_world_elapsed_inv _ _ _ _ _ _ _ Hmain)) as [Hlock Hden].
  fold w0 in Hp0, Hmon, Hsent, Hlock, Hden.
  rewrite (main_monitor _ _ _ _ _ _ _ Hmain) in Hmon.
  rewrite (main_sum_sent_due _ _ _ _ _ _ _ Hmain) in Hsent.
  destruct Hp0 as [Hlen Hpair]. unfold all_returned in Hret.
  clearbody w0. destruct w0 as [ss fs m].
  cbn [senders send_alls monitor] in *. subst m.
  unfold harvest_on, monitor_in_hand in *. cbn in Hden, Hlock.
  assert (Hpaired : forall j s, ss !! j = Some s ->
            exists f, fs !! j = Some f /\ pc f = SendAll_returned /\
                      sender_inv s f).
  { intros j s Hs. destruct (lookup_lt_is_Some_2 fs j) as [f Hf].
    { rewrite Hlen. by eapply lookup_lt_Some. }
    exists f. split_and!; [done|by apply (Hret j)|by apply (Hpair j)]. }
  assert (Hidle : Forall (fun s => is_sending s = false) ss).
  { apply Forall_lookup. intros j s Hs.
    destruct (Hpaired j s Hs) as (f & _ & Hpc & Hsend & _).
    rewrite Hsend. unfold drain_loop_running. by rewrite Hpc. }
  assert (Hfree : Forall (fun s => elapsed_time_lock s = false) ss).
  { apply Forall_lookup. intros j s Hs.
    destruct (Hpaired j s Hs) as (f & Hf & Hpc & _).
    destruct (Hlock j s f Hs Hf) as (Hl & _). cbn in Hl.
    rewrite Hl. unfold holds_elapsed_lock. by rewrite Hpc. }
  assert (Hsent' : sum_of num_messages_sent ss = Z.of_nat (length produced)).
  { rewrite <- Hsent. symmetry. apply sum_senders_sum_of; [done|].
    intros j s f Hs Hf. destruct (Hpair j s f Hs Hf) as (_ & _ & _ & _ & Hleft & _).
    pose proof (Hret j f Hf) as Hpc. unfold sent_due, in_flight.
    rewrite Hpc, Hleft; [cbn; lia|]. unfold loop_left. by rewrite Hpc. }
  assert (Hden' : sum_of elapsed_time_denominator ss
                  = Z.of_nat (length produced)).
  { rewrite <- Hden.
    rewrite (sum_senders_sum_of denominator_due elapsed_time_denominator);
      [lia|done|].
    intros j s f Hs Hf. destruct (Hpair j s f Hs Hf) as (_ & _ & _ & _ & Hleft & _).
    pose proof (Hret j f Hf) as Hpc. unfold denominator_due, counted_not_removed.
    rewrite Hpc, Hleft; [cbn; lia|]. unfold loop_left. by rewrite Hpc. }
  cbn zeta.
  set (m1 := mgoto (L96_any 0) (set_last_pass false (Monitor_init u))).
  set (m3 := mkMonitor u 0 0 0 0 (L98_for 0) true false [] [false]).
  assert (Hrun : world_run (repeat monitor_thread (7 * length ss + 4))
                   (mkWorld ss fs (Monitor_init u))
                 = mkWorld (map reset_stats ss) fs
                     (mgoto L104_display (accumulate_all ss m3))).
  { replace (7 * length ss + 4)
      with (1 + ((length ss + 1) + (1 + (6 * length ss + 1)))) by lia.
    rewrite (@repeat_app _ monitor_thread 1), world_run_app.
    rewrite (@repeat_app _ monitor_thread (length ss + 1)), world_run_app.
    rewrite (@repeat_app _ monitor_thread 1 (6 * length ss + 1)), world_run_app.
    change (world_run (repeat monitor_thread 1) (mkWorld ss fs (Monitor_init u)))
      with (mkWorld ss fs m1).
    pose proof (scan_alone [] ss fs m1 eq_refl Hidle) as Hscan.
    pose proof (pass_alone_from [] ss fs m3 eq_refl Hfree) as Hpass.
    cbn [app] in Hscan, Hpass. rewrite Hscan.
    change (world_run (repeat monitor_thread 1) (mkWorld ss fs _))
      with (mkWorld ss fs m3).
    by rewrite Hpass. }
  rewrite Hrun.
  cbn [senders monitor].
  destruct (accumulate_all_totals ss m3) as (H1 & H2 & H3 & _ & _ & H4 & _).
  cbn in H1, H2, H3, H4.
  split_and!; try done.
  - by rewrite <- Hsent'.
  - by rewrite <- Hden'.
Qed.

Lemma monitor_after_senders_counts_all_witness :
  let w0 := world_run (repeat (sender_thread 0) 23) world_demo in
  let w1 := world_run (repeat monitor_thread 11) w0 in
  mpc (monitor w1) = L104_display /\
  last_pass (monitor w1) = true /\
  monitor_num_messages_sent (monitor w1) = 1%Z /\
  monitor_elapsed_time_denominator (monitor w1) = 1%Z /\
  monitor_num_messages_failed (monitor w1) = 0%Z /\
  senders w1 = map reset_stats (senders w0).
Proof.
  assert (Hsched : Forall (fun t => t <> monitor_thread)
                     (repeat (sender_thread 0) 23))
    by (repeat constructor; discriminate).
  assert (Hret : all_returned (world_run (repeat (sender_thread 0) 23) world_demo)).
  { intros [|i] f; vm_compute; intros [= <-]; reflexivity. }
  exact (monitor_after_senders_counts_all [msg1] 1 1 0 1
           (fun _ => [succeed_a]) world_demo (repeat (sender_thread 0) 23)
           eq_refl Hsched Hret).
Defined.

(** ** Where the denominator is at any time *)

Lemma counted_not_removed_pending (s : Sender) (f : SendAllFrame) :
  (in_loop_body f -> messages s <> []) ->
  (0 <= counted_not_removed f <= Z.of_nat (length (messages s)))%Z.
Proof.
  unfold in_loop_body, counted_not_removed. intros Hbody.
  destruct (messages s) as [|m ms]; cbn [length].
  - destruct (pc f); try lia; by destruct Hbody.
  - destruct (pc f); lia.
Qed.

(** X17. At every moment of every run of the program, the number of
    messages produced is the sum of three things: the monitor's
    elapsed-time denominator, the denominator it has taken out of a
    sender and not yet added, and, over the senders, the denominator
    each still holds plus its pending messages (the one counted and
    not yet removed taken once). So the denominator of the average
    never exceeds the number of messages produced. *)
Theorem denominator_is_accounted_for (produced : list Message) (S : Z)
    (d fr u : float) (answers : nat -> list Attempt) (w : World)
    (sched : list ThreadId) :
  main produced S d fr u answers = Ok w ->
  let w' := world_run sched w in
  (sum_senders denominator_due (senders w') (send_alls w')
   + monitor_in_hand (monitor w')
   + monitor_elapsed_time_denominator (monitor w')
   = Z.of_nat (length produced))%Z /\
  (0 <= sum_senders denominator_due (senders w') (send_alls w'))%Z /\
  (0 <= monitor_in_hand (monitor w'))%Z /\
  (0 <= monitor_elapsed_time_denominator (monitor w')
     <= Z.of_nat (length produced))%Z.
Proof.
  intros Hmain w'.
  assert (Hp : world_paired w')
    by (apply world_paired_run; by eapply main_world_paired).
  assert (Hn : world_nonneg w')
    by (apply world_run_nonneg; by eapply main_world_nonneg).
  assert (He : world_elapsed_inv (Z.of_nat (length produced)) w').
  { apply world_elapsed_inv_run; [by eapply main_world_paired|].
    by eapply main_world_elapsed_inv. }
  destruct Hp as [_ Hpair].
  destruct Hn as (Hss & _ & (_ & _ & Hden) & Hhand & _).
  destruct He as [_ Hbal].
  assert (Hsum : (0 <= sum_senders denominator_due (senders w') (send_alls w'))%Z).
  { apply sum_senders_nonneg. intros j s f Hs Hf.
    rewrite Forall_lookup in Hss. destruct (Hss j s Hs) as (_ & _ & Hd).
    destruct (Hpair j s f Hs Hf) as (_ & _ & _ & Hbody & _).
    pose proof (counted_not_removed_pending s f Hbody).
    unfold denominator_due. lia. }
  assert (Hin : (0 <= monitor_in_hand (monitor w'))%Z).
  { unfold monitor_in_hand, harvest_in_hand.
    destruct (mpc (monitor w')); try lia.
    - destruct (gpc g); try lia. apply Hhand.
    - apply Hhand. }
  split_and!; [done|done|done|done|lia].
Qed.

Lemma denominator_is_accounted_for_witness :
  let w' := world_run sched_demo world_demo in
  (sum_senders denominator_due (senders w') (send_alls w')
   + monitor_in_hand (monitor w')
   + monitor_elapsed_time_denominator (monitor w') = 1)%Z /\
  (0 <= sum_senders denominator_due (senders w') (send_alls w'))%Z /\
  (0 <= monitor_in_hand (monitor w'))%Z /\
  (0 <= monitor_elapsed_time_denominator (monitor w') <= 1)%Z.
Proof.
  exact (denominator_is_accounted_for [msg1] 1 1 0 1 (fun _ => [succeed_a])
           world_demo sched_demo eq_refl).
Defined.
